(** * StreamDeckHID: device session, button reading and the UI composable

    A shallow embedding of the Stream Deck controller:

    - [Hid]: [StreamDeck::read_buttons] (implementation guide, Phase 3);
    - [Poller]: the rising-edge polling loop (Phase 5), next to the edge
      detector [diff_spec] and the event stream the specification describes;
    - [Actions]: the string-keyed action registry and its dispatch;
    - [Commands]: the managed [AppState] with [connect_device] (Phase 2);
    - [UseStreamDeck]: the [useStreamDeck] composable of the Vue front end
      ([connect], [disconnect], [setupButtonListener], [cleanupButtonListener]).

    Rust panics (an index out of bounds) are modelled explicitly by the
    [Panic] outcome, Rust [Result] by [Result], a rejected promise of the
    front end by [Err]. *)

From Stdlib Require Import Init.Byte.
From stdpp Require Import base option list sorting strings gmap.

Set Default Proof Using "Type".

(** ** Results and panics *)

Inductive Result (T E : Type) : Type :=
  | Ok (t : T)
  | Err (e : E).
Arguments Ok {T E} t.
Arguments Err {T E} e.

(** A Rust computation either completes with a value or panics. *)
Inductive Outcome (A : Type) : Type :=
  | Done (a : A)
  | Panic.
Arguments Done {A} a.
Arguments Panic {A}.

#[global] Instance outcome_ret : MRet Outcome := fun _ a => Done a.

#[global] Instance outcome_bind : MBind Outcome := fun _ _ k m =>
  match m with
  | Done a => k a
  | Panic => Panic
  end.

(** [a[i]] on a Rust array or slice: out of range panics. *)
Definition index_get {A : Type} (a : list A) (i : nat) : Outcome A :=
  match a !! i with
  | Some x => Done x
  | None => Panic
  end.

(** [a[i] = v]: out of range panics (stdpp's insert alone would do nothing). *)
Definition index_set {A : Type} (a : list A) (i : nat) (v : A) : Outcome (list A) :=
  if decide (i < length a) then Done (<[i:=v]> a) else Panic.

Module Hid.

(** *** Constants of [hid/constants.rs] as the guide and the grid use them *)

Definition BUTTON_COUNT : nat := 15.

(** [let mut buf = [0u8; 512]] *)
Definition REPORT_BUF_LEN : nat := 512.

(** [let offset = 4] (Stream Deck MK.2) *)
Definition offset : nat := 4.

(** The open HID handle; the bytes it delivers come from the environment. *)
Definition HidDevice : Type := nat.

Record StreamDeck : Type := mkStreamDeck {
  device : HidDevice;
  button_states : list bool;   (* [bool; BUTTON_COUNT] *)
}.

Definition set_button_states (st : list bool) (self : StreamDeck) : StreamDeck :=
  {| device := device self; button_states := st |}.

(** What [self.device.read(&mut buf)] does on one call: the device delivers a
    report (possibly empty: no data available) or the read fails. *)
Inductive HidRead : Type :=
  | Delivered (report : list byte)
  | ReadFailed (e : string).

(** The buffer after the read: the report copied over the zeroed buffer,
    never more than the buffer holds. *)
Definition fill_buf (report : list byte) : list byte :=
  take REPORT_BUF_LEN (report ++ replicate REPORT_BUF_LEN x00).

(** The [bytes_read] the read returns. *)
Definition bytes_read_of (report : list byte) : nat :=
  length report `min` REPORT_BUF_LEN.

(** [b != 0] *)
Definition nonzero (b : byte) : bool :=
  negb (Byte.eqb b x00).

(** [for i in idxs { self.button_states[i] = buf[offset + i] != 0; }] *)
Fixpoint store_buttons (buf : list byte) (idxs : list nat) (states : list bool)
  : Outcome (list bool) :=
  match idxs with
  | [] => Done states
  | i :: rest =>
      b ← index_get buf (offset + i);
      states' ← index_set states i (nonzero b);
      store_buttons buf rest states'
  end.

(** [StreamDeck::read_buttons(&mut self) -> Result<&[bool; BUTTON_COUNT], String>]:
    the value returned and the receiver afterwards. *)
Definition read_buttons (r : HidRead) (self : StreamDeck)
  : Outcome (Result (list bool) string * StreamDeck) :=
  match r with
  | Delivered report =>
      let buf := fill_buf report in
      if decide (0 < bytes_read_of report) then
        states' ← store_buttons buf (seq 0 BUTTON_COUNT) (button_states self);
        Done (Ok states', set_button_states states' self)
      else
        (* Ok(_) => {}  no data available *)
        Done (Ok (button_states self), self)
  | ReadFailed e =>
      Done (Err (String.append "Read error: " e), self)
  end.

(** The states a report decodes to: button [i] is held when byte
    [offset + i] of the report is not zero, a byte the report does not have
    reading as the buffer's initial zero. *)
Definition decoded (report : list byte) : list bool :=
  (fun i => nonzero (nth (offset + i) report x00)) <$> seq 0 BUTTON_COUNT.

Definition well_formed (self : StreamDeck) : Prop :=
  length (button_states self) = BUTTON_COUNT.

(** *** Facts about the report buffer *)

Lemma length_fill_buf report : length (fill_buf report) = REPORT_BUF_LEN.
Proof.
  unfold fill_buf. rewrite length_take, length_app, length_replicate. lia.
Qed.

Lemma nth_fill_buf report k :
  k < REPORT_BUF_LEN -> nth k (fill_buf report) x00 = nth k report x00.
Proof.
  intros Hk. unfold fill_buf.
  rewrite !nth_lookup, lookup_take_lt by done.
  destruct (decide (k < length report)) as [Hlt|Hge].
  - by rewrite lookup_app_l.
  - rewrite lookup_app_r by lia.
    rewrite lookup_replicate_2 by lia.
    by rewrite (lookup_ge_None_2 report k) by lia.
Qed.

(** *** The store loop *)

Lemma store_buttons_seq buf m : forall k states,
  offset + (k + m) <= length buf ->
  k + m = length states ->
  store_buttons buf (seq k m) states =
    Done (take k states ++ ((fun i => nonzero (nth (offset + i) buf x00)) <$> seq k m)).
Proof.
  induction m as [|m IH]; intros k states Hbuf Hlen.
  - simpl. rewrite app_nil_r, take_ge by lia. done.
  - cbn [seq store_buttons fmap list_fmap]. unfold index_get.
    destruct (lookup_lt_is_Some_2 buf (offset + k)) as [b Hb]; [lia|].
    rewrite Hb. cbn [mbind outcome_bind]. unfold index_set.
    destruct (decide (k < length states)) as [_|?]; [|lia].
    cbn [mbind outcome_bind].
    rewrite IH by (rewrite ?length_insert; lia).
    f_equal. rewrite (nth_lookup_Some _ _ _ _ Hb).
    rewrite (take_S_r _ _ (nonzero b)), <- app_assoc.
    + simpl app. by rewrite take_insert_ge by lia.
    + apply list_lookup_insert_eq. lia.
Qed.

Lemma store_buttons_report report states :
  length states = BUTTON_COUNT ->
  store_buttons (fill_buf report) (seq 0 BUTTON_COUNT) states = Done (decoded report).
Proof.
  intros Hlen.
  rewrite store_buttons_seq.
  - rewrite take_0, app_nil_l. f_equal. unfold decoded.
    apply list_fmap_ext. intros j i Hi.
    apply lookup_seq in Hi as [-> Hi].
    f_equal. apply nth_fill_buf. unfold offset, REPORT_BUF_LEN, BUTTON_COUNT in *. lia.
  - rewrite length_fill_buf. unfold offset, REPORT_BUF_LEN, BUTTON_COUNT. lia.
  - by rewrite Hlen.
Qed.

Lemma length_decoded report : length (decoded report) = BUTTON_COUNT.
Proof. unfold decoded. by rewrite length_fmap, length_seq. Qed.

Lemma bytes_read_pos report : 0 < bytes_read_of report <-> report <> [].
Proof.
  unfold bytes_read_of, REPORT_BUF_LEN. destruct report; simpl; split; (done || lia).
Qed.

(** *** [read_buttons] *)

Lemma read_buttons_delivered report self :
  well_formed self -> report <> [] ->
  read_buttons (Delivered report) self =
    Done (Ok (decoded report), set_button_states (decoded report) self).
Proof.
  intros Hwf Hne. unfold read_buttons.
  destruct (decide (0 < bytes_read_of report)) as [_|Hz].
  - by rewrite store_buttons_report.
  - by apply bytes_read_pos in Hne.
Qed.

Lemma read_buttons_empty self :
  read_buttons (Delivered []) self = Done (Ok (button_states self), self).
Proof. done. Qed.

(** On a device object with its 15 states the call never panics; what it
    returns on success is the stored state. *)
Lemma read_buttons_returns r self :
  well_formed self ->
  exists res self',
    read_buttons r self = Done (res, self') /\ well_formed self' /\
    device self' = device self /\
    match res with
    | Ok current => current = button_states self'
    | Err _ => self' = self
    end.
Proof.
  intros Hwf. destruct r as [report|e].
  - destruct (decide (report = [])) as [->|Hne].
    + eexists _, _. rewrite read_buttons_empty. done.
    + eexists _, _. rewrite read_buttons_delivered by done.
      split; [done|]. split; [apply length_decoded|done].
  - eexists _, _. simpl. done.
Qed.

(** C2 (as amended): a report shorter than [offset + BUTTON_COUNT] is not
    rejected. [read_buttons] returns [Ok], never an error, and never indexes
    outside the 512-byte buffer (it does not panic): a report of no byte leaves
    the stored states as they are, any other is decoded over the zeroed
    buffer, so that every button whose byte the report lacks reads as
    released. *)
Theorem read_buttons_short_report (report : list byte) (self : StreamDeck) :
  well_formed self ->
  length report < offset + BUTTON_COUNT ->
  let states' :=
    if decide (report = []) then button_states self else decoded report in
  read_buttons (Delivered report) self =
    Done (Ok states', set_button_states states' self) /\
  length states' = BUTTON_COUNT /\
  (forall i, i < BUTTON_COUNT -> report <> [] -> length report <= offset + i ->
             states' !! i = Some false).
Proof.
  intros Hwf Hshort states'. subst states'.
  destruct (decide (report = [])) as [->|Hne].
  - rewrite read_buttons_empty. by destruct self.
  - rewrite read_buttons_delivered by done.
    split; [done|]. split; [apply length_decoded|].
    intros i Hi _ Hlen. unfold decoded.
    rewrite list_lookup_fmap, lookup_seq_lt by done. simpl.
    by rewrite nth_overflow.
Qed.

(** The amended C2 at a report of five bytes. *)
Lemma read_buttons_short_report_witness :
  let self := mkStreamDeck 0 (replicate 15 true) in
  read_buttons (Delivered [x01; x00; x00; x00; x01]) self =
    Done (Ok (true :: replicate 14 false),
          mkStreamDeck 0 (true :: replicate 14 false)).
Proof.
  intros self.
  destruct (read_buttons_short_report [x01; x00; x00; x00; x01] self) as (Hr & _).
  - reflexivity.
  - unfold offset, BUTTON_COUNT. simpl. lia.
  - exact Hr.
Defined.

(** C2 (as stated, refuted): a report of five bytes, shorter than the 19 that
    [offset + BUTTON_COUNT] asks for, is decoded into a button state and
    returned with [Ok]; no error is returned. *)
Lemma read_buttons_short_report_not_rejected :
  let report := [x01; x00; x00; x00; x01] in
  let self := mkStreamDeck 0 (replicate 15 false) in
  length report < offset + BUTTON_COUNT /\
  read_buttons (Delivered report) self =
    Done (Ok (true :: replicate 14 false),
          mkStreamDeck 0 (true :: replicate 14 false)) /\
  (forall e, read_buttons (Delivered report) self <> Done (Err e, self)).
Proof.
  repeat split.
  - unfold offset, BUTTON_COUNT. simpl. lia.
  - intros e. discriminate.
Qed.

(** C9: a read of zero bytes leaves [button_states] as it is and returns [Ok]
    with the previous states; whenever a call changes [button_states], the
    read had delivered at least one byte. *)
Theorem read_buttons_no_data (self : StreamDeck) :
  read_buttons (Delivered []) self = Done (Ok (button_states self), self) /\
  (forall r res self',
     read_buttons r self = Done (res, self') ->
     button_states self' <> button_states self ->
     exists report, r = Delivered report /\ 0 < bytes_read_of report).
Proof.
  split; [done|].
  intros r res self' Hr Hneq. destruct r as [report|e].
  - exists report. split; [done|].
    unfold read_buttons in Hr.
    destruct (decide (0 < bytes_read_of report)); [done|].
    congruence.
  - simpl in Hr. congruence.
Qed.

End Hid.

Module Poller.
Import Hid.

(** *** Edge events *)

Inductive Edge : Type := Pressed | Released.

Record ButtonEvent : Type := mkButtonEvent {
  index : nat;
  edge : Edge;
}.

#[global] Instance Edge_eq_dec : EqDecision Edge.
Proof. solve_decision. Defined.

#[global] Instance ButtonEvent_eq_dec : EqDecision ButtonEvent.
Proof. solve_decision. Defined.

Definition edge_of (current_i : bool) : Edge :=
  if current_i then Pressed else Released.

Definition pressed0 : ButtonEvent := mkButtonEvent 0 Pressed.

(** *** The polling loop of Phase 5

    [if current[0] && !prev_states[0]]: the only edge the loop reacts to.
    [&&] does not read [prev_states[0]] when [current[0]] is false. *)
Definition rising_edge (current prev_states : list bool) : Outcome bool :=
  c ← index_get current 0;
  if (c : bool) then p ← index_get prev_states 0; Done (negb p) else Done false.

(** The events one iteration reacts to, for [prev_states] and [current]:
    taking the branch "Button just pressed (rising edge)" of button 0 is
    recorded as the event [{index 0, Pressed}]; the loop has no other branch. *)
Definition loop_events (prev_states current : list bool) : Outcome (list ButtonEvent) :=
  b ← rising_edge current prev_states;
  Done (if (b : bool) then [pressed0] else []).

(** The loop's variables, with the log of the events it reacted to. *)
Record LoopState : Type := mkLoopState {
  streamdeck : StreamDeck;
  prev_states : list bool;
  fired : list ButtonEvent;
}.

(** What the environment does during one iteration: the HID read, and what
    [audio::increase_volume_simple()] returns if the iteration calls it. *)
Record Tick : Type := mkTick {
  hid_read : HidRead;
  volume_up : Result unit string;
}.

(** One iteration either goes on with the next, or [?] leaves the loop. *)
Inductive Flow : Type :=
  | Continue (st : LoopState)
  | Exit (e : string) (st : LoopState).

Definition iteration (t : Tick) (st : LoopState) : Outcome Flow :=
  '(res, sd) ← read_buttons (hid_read t) (streamdeck st);
  match res with
  | Err e => Done (Exit e (mkLoopState sd (prev_states st) (fired st)))
  | Ok current =>
      b ← rising_edge current (prev_states st);
      if (b : bool) then
        (* Button just pressed (rising edge) *)
        let log := fired st ++ [pressed0] in
        match volume_up t with
        | Err e => Done (Exit e (mkLoopState sd (prev_states st) log))
        | Ok _ => Done (Continue (mkLoopState sd current log))
        end
      else
        (* prev_states = *current *)
        Done (Continue (mkLoopState sd current (fired st)))
  end.

(** The states after each completed iteration, up to the first that leaves
    the loop. *)
Fixpoint poll_trace (ticks : list Tick) (st : LoopState) : list LoopState :=
  match ticks with
  | [] => []
  | t :: rest =>
      match iteration t st with
      | Done (Continue st') => st' :: poll_trace rest st'
      | _ => []
      end
  end.

(** [let mut prev_states = [false; 15]] over a device just connected. *)
Definition loop_start (sd : StreamDeck) : LoopState :=
  mkLoopState sd (replicate 15 false) [].

Definition loop_wf (st : LoopState) : Prop :=
  well_formed (streamdeck st) /\ length (prev_states st) = BUTTON_COUNT.

(** Button [i] reads as held in the state the device object stores. *)
Definition held (i : nat) (st : LoopState) : Prop :=
  button_states (streamdeck st) !! i = Some true.

(** The edges logged for button [i]. *)
Definition edges_of (i : nat) (evs : list ButtonEvent) : list Edge :=
  edge <$> filter (fun ev => index ev = i) evs.

(** Reports of six bytes: buttons 0 and 1 down, and both up. *)
Definition tick_down : Tick :=
  mkTick (Delivered [x01; x00; x00; x00; x01; x01]) (Ok ()).

Definition tick_up : Tick :=
  mkTick (Delivered [x01; x00; x00; x00; x00; x00]) (Ok ()).

Definition tick_no_data : Tick :=
  mkTick (Delivered []) (Ok ()).

Definition deck0 : StreamDeck := mkStreamDeck 0 (replicate 15 false).

(** *** The edge detector of the specification

    Modelled from the spec: [diff(previous, current)], which has no
    counterpart in the sources beyond the rising-edge test above. "For every
    index where previous[i] != current[i], emit one event in ascending index
    order; Pressed when current[i] == true, Released otherwise"; a previous
    state that is too short counts as all false. *)
Fixpoint diff_from (i : nat) (previous current : list bool) : list ButtonEvent :=
  match current with
  | [] => []
  | c :: current' =>
      let p := default false (head previous) in
      let rest := diff_from (S i) (tail previous) current' in
      if Bool.eqb p c then rest else mkButtonEvent i (edge_of c) :: rest
  end.

Definition diff_spec (previous current : list bool) : list ButtonEvent :=
  diff_from 0 previous current.

(** *** The button-state event stream

    The payload of the "streamdeck://button-state" event, [ButtonEvent] of
    the front end: [json!({"buttons": button_states.to_vec()})]. *)
Record ButtonStatePayload : Type := mkPayload {
  buttons : list bool;
}.

Record Session : Type := mkSession {
  session_deck : StreamDeck;
  last_states : list bool;
}.

Inductive PollResult : Type :=
  | Ticked (s : Session) (events : list ButtonEvent)
           (emitted : option ButtonStatePayload)
  | DeviceLost (e : string).

(** Modelled from the spec: one tick of the polling thread, whose body the
    guide leaves as the comment "Get lock, read buttons, emit event". The
    spec: read a report, decode it, diff against [last_states], update
    [last_states]; the event stream carries the full current state "after
    each tick with at least one edge", the front end's "Button event emitted
    from Rust when button states change". The read and the payload are the
    sources' [read_buttons] and [button_states.to_vec()]. *)
Definition poll_once (r : HidRead) (s : Session) : Outcome PollResult :=
  '(res, sd) ← read_buttons r (session_deck s);
  match res with
  | Err e => Done (DeviceLost e)
  | Ok current =>
      let events := diff_spec (last_states s) current in
      let emitted :=
        match events with
        | [] => None
        | _ :: _ => Some (mkPayload current)
        end in
      Done (Ticked (mkSession sd current) events emitted)
  end.

(** The session after a run of ticks; a lost device ends the run. *)
Fixpoint session_after (reads : list HidRead) (s : Session) : Session :=
  match reads with
  | [] => s
  | r :: rest =>
      match poll_once r s with
      | Done (Ticked s' _ _) => session_after rest s'
      | _ => s
      end
  end.

(** The session a successful connect creates: zeroed initial state. *)
Definition new_session (dev : HidDevice) : Session :=
  mkSession (mkStreamDeck dev (replicate BUTTON_COUNT false))
            (replicate BUTTON_COUNT false).

Definition session_wf (s : Session) : Prop :=
  well_formed (session_deck s) /\ length (last_states s) = BUTTON_COUNT.

(** *** The edge detector: what [diff_spec] lists *)

Lemma diff_from_elem k previous current ev :
  ev ∈ diff_from k previous current <->
  exists j c, index ev = k + j /\ current !! j = Some c /\
              default false (previous !! j) <> c /\ edge ev = edge_of c.
Proof.
  revert k previous.
  induction current as [|c current IH]; intros k previous; simpl.
  - split; [by intros ?%elem_of_nil|]. by intros (j & c & _ & ? & _).
  - assert (Hhd : default false (head previous) = default false (previous !! 0))
      by (by destruct previous).
    assert (Htl : forall j, tail previous !! j = previous !! S j)
      by (by destruct previous).
    destruct (Bool.eqb_spec (default false (head previous)) c) as [Heq|Hne].
    + rewrite IH. split.
      * intros (j & c' & ? & ? & ? & ?). exists (S j), c'.
        rewrite <- Htl. repeat split; [lia|done..].
      * intros ([|j] & c' & Hi & Hc & Hp & He).
        { simpl in Hc. rewrite <- Hhd in Hp. congruence. }
        exists j, c'. rewrite Htl. repeat split; [lia|done..].
    + rewrite elem_of_cons, IH. split.
      * intros [->|(j & c' & ? & ? & ? & ?)].
        { exists 0, c. rewrite <- Hhd. repeat split; [simpl; lia|done..]. }
        exists (S j), c'. rewrite <- Htl. repeat split; [lia|done..].
      * intros ([|j] & c' & Hi & Hc & Hp & He).
        { left. simpl in Hc. destruct ev as [i e]; simpl in *.
          f_equal; [lia|congruence]. }
        right. exists j, c'. rewrite Htl. repeat split; [lia|done..].
Qed.

Lemma diff_from_sorted k previous current :
  StronglySorted lt (index <$> diff_from k previous current).
Proof.
  revert k previous.
  induction current as [|c current IH]; intros k previous; simpl.
  - constructor.
  - destruct (Bool.eqb _ c); [apply IH|].
    rewrite fmap_cons. constructor; [apply IH|].
    apply Forall_forall. intros i (ev & -> & Hev)%list_elem_of_fmap.
    apply diff_from_elem in Hev as (j & ? & Hi & _). simpl. lia.
Qed.

Lemma sorted_lt_NoDup (l : list nat) : StronglySorted lt l -> NoDup l.
Proof.
  induction 1 as [|x l _ IH Hall]; constructor; [|done].
  intros Hx. eapply Forall_forall in Hall; [|exact Hx]. lia.
Qed.

(** For states of equal length [diff_spec] lists exactly the indices that
    changed, each once and in ascending order, with the edge of the new
    state. *)
Lemma diff_spec_exact (A B : list bool) :
  length A = length B ->
  (forall i, i ∈ (index <$> diff_spec A B) <->
             exists a b, A !! i = Some a /\ B !! i = Some b /\ a <> b) /\
  NoDup (index <$> diff_spec A B) /\
  StronglySorted lt (index <$> diff_spec A B) /\
  (forall ev, ev ∈ diff_spec A B ->
              B !! index ev = Some (bool_decide (edge ev = Pressed))).
Proof.
  intros Hlen. unfold diff_spec. repeat split.
  - intros (ev & -> & Hev)%list_elem_of_fmap.
    apply diff_from_elem in Hev as (j & c & Hi & Hc & Hp & _).
    simpl in Hi. subst j.
    destruct (lookup_lt_is_Some_2 A (index ev)) as [a Ha].
    { rewrite Hlen. by eapply lookup_lt_Some. }
    exists a, c. rewrite Ha in Hp. done.
  - intros (a & b & Ha & Hb & Hab).
    apply list_elem_of_fmap. exists (mkButtonEvent i (edge_of b)). split; [done|].
    apply diff_from_elem. exists i, b. rewrite Ha. done.
  - apply sorted_lt_NoDup, diff_from_sorted.
  - apply diff_from_sorted.
  - intros ev (j & c & Hi & Hc & _ & He)%diff_from_elem.
    simpl in Hi. subst j. rewrite Hc, He. by destruct c.
Qed.

Lemma diff_spec_same (A : list bool) : diff_spec A A = [].
Proof.
  apply elem_of_nil_inv. intros ev (j & c & _ & Hc & Hp & _)%diff_from_elem.
  rewrite Hc in Hp. done.
Qed.

(** *** The rising-edge test *)

Lemma rising_edge_cons c current p prev :
  rising_edge (c :: current) (p :: prev) = Done (c && negb p).
Proof. by destruct c. Qed.

Lemma loop_events_cons p prev c current :
  loop_events (p :: prev) (c :: current) =
    Done (if c && negb p then [pressed0] else []).
Proof. unfold loop_events. by rewrite rising_edge_cons. Qed.

Lemma diff_from_ge k previous current ev :
  ev ∈ diff_from k previous current -> k <= index ev.
Proof. intros (j & ? & -> & _)%diff_from_elem. lia. Qed.

Lemma filter_pressed0_diff_from previous current :
  filter (fun ev => ev = pressed0) (diff_from 1 previous current) = [].
Proof.
  apply elem_of_nil_inv. intros ev [-> Hev%diff_from_ge]%list_elem_of_filter.
  simpl in Hev. lia.
Qed.

(** *** One iteration and the trace of the loop *)

Lemma iteration_continue t st st' :
  loop_wf st ->
  iteration t st = Done (Continue st') ->
  loop_wf st' /\
  prev_states st' = button_states (streamdeck st') /\
  exists evs, loop_events (prev_states st) (prev_states st') = Done evs /\
              fired st' = fired st ++ evs.
Proof.
  intros [Hsd Hprev] Hit. unfold iteration in Hit.
  destruct (read_buttons_returns (hid_read t) _ Hsd)
    as (res & sd & Hrd & Hsd' & _ & Hres).
  rewrite Hrd in Hit. cbn [mbind outcome_bind] in Hit.
  destruct res as [current|e]; [subst current|done].
  destruct (prev_states st) as [|p prev] eqn:Ep; [done|].
  destruct (button_states sd) as [|c current] eqn:Ec; [done|].
  rewrite rising_edge_cons in Hit. cbn [mbind outcome_bind] in Hit.
  destruct (c && negb p) eqn:Eb.
  - destruct (volume_up t); [|done].
    injection Hit as <-. simpl. rewrite Ec, loop_events_cons, Eb.
    repeat split; [done| |by eexists]. by rewrite <- Ec.
  - injection Hit as <-. simpl. rewrite Ec, loop_events_cons, Eb.
    repeat split; [done| |eexists; by rewrite app_nil_r]. by rewrite <- Ec.
Qed.

Lemma poll_trace_cons_inv t run st :
  length (poll_trace (t :: run) st) = length (t :: run) ->
  exists st', iteration t st = Done (Continue st') /\
              poll_trace (t :: run) st = st' :: poll_trace run st' /\
              length (poll_trace run st') = length run.
Proof.
  simpl. destruct (iteration t st) as [[st'|]|]; [|done..].
  intros [= Hlen]. by exists st'.
Qed.

(** While button 0 stays held nothing more is logged. *)
Lemma poll_trace_held run : forall st,
  loop_wf st ->
  prev_states st !! 0 = Some true ->
  length (poll_trace run st) = length run ->
  Forall (held 0) (poll_trace run st) ->
  Forall (fun s => fired s = fired st) (poll_trace run st).
Proof.
  induction run as [|t run IH]; intros st Hwf Hprev Hlen Hheld; [constructor|].
  apply poll_trace_cons_inv in Hlen as (st' & Hit & Htr & Hlen).
  rewrite Htr in *. apply Forall_cons in Hheld as [Hst' Hheld].
  destruct (iteration_continue _ _ _ Hwf Hit) as (Hwf' & Hsame & evs & Hevs & Hlog).
  assert (evs = []) as ->.
  { unfold held in Hst'. rewrite <- Hsame in Hst'.
    destruct (prev_states st) as [|p prev]; [done|].
    destruct (prev_states st') as [|c current]; [done|].
    rewrite loop_events_cons in Hevs. simpl in *. by simplify_eq. }
  rewrite app_nil_r in Hlog. constructor; [done|].
  rewrite <- Hlog. apply IH; [done| |done..].
  by rewrite Hsame.
Qed.

Lemma poll_trace_held_inv run : forall st,
  loop_wf st ->
  prev_states st !! 0 = Some true ->
  length (poll_trace run st) = length run ->
  Forall (held 0) (poll_trace run st) ->
  Forall (fun s => loop_wf s /\ prev_states s !! 0 = Some true) (poll_trace run st).
Proof.
  induction run as [|t run IH]; intros st Hwf Hprev Hlen Hheld; [constructor|].
  apply poll_trace_cons_inv in Hlen as (st' & Hit & Htr & Hlen).
  rewrite Htr in *. apply Forall_cons in Hheld as [Hst' Hheld].
  destruct (iteration_continue _ _ _ Hwf Hit) as (Hwf' & Hsame & _).
  assert (prev_states st' !! 0 = Some true) by (by rewrite Hsame).
  constructor; [done|]. by apply IH.
Qed.

Lemma edges_of_app i evs1 evs2 :
  edges_of i (evs1 ++ evs2) = edges_of i evs1 ++ edges_of i evs2.
Proof. unfold edges_of. by rewrite filter_app, fmap_app. Qed.

(** *** What the loop reacts to *)

(** C1 (as amended): for the states [A] of the previous iteration and [B] of
    this one, the loop reacts to one edge only. Of the events [diff_spec A B]
    lists it keeps the Pressed event of index 0 and nothing else: one event
    when [A[0]] is false and [B[0]] is true, none otherwise. What it emits is
    therefore at an index where [A] and [B] differ, with edge Pressed and
    [B] true there, and never twice the same index. *)
Theorem loop_events_rising_edge_only (A B : list bool) :
  length A = BUTTON_COUNT ->
  length B = BUTTON_COUNT ->
  loop_events A B = Done (filter (fun ev => ev = pressed0) (diff_spec A B)) /\
  filter (fun ev => ev = pressed0) (diff_spec A B) =
    (if decide (A !! 0 = Some false /\ B !! 0 = Some true) then [pressed0] else []).
Proof.
  intros HA HB.
  destruct A as [|a A]; [done|]. destruct B as [|b B]; [done|].
  rewrite loop_events_cons. unfold diff_spec. cbn [diff_from head tail default].
  pose proof (filter_pressed0_diff_from A B) as Hrest.
  destruct a, b; simpl; rewrite ?filter_cons; simpl;
    repeat case_decide; rewrite ?Hrest; try done; naive_solver.
Qed.

(** The amended C1 at a press of button 0. *)
Lemma loop_events_rising_edge_only_witness :
  loop_events (replicate 15 false) (true :: replicate 14 false) =
    Done (filter (fun ev => ev = pressed0)
            (diff_spec (replicate 15 false) (true :: replicate 14 false))).
Proof.
  destruct (loop_events_rising_edge_only
              (replicate 15 false) (true :: replicate 14 false)) as [H _].
  - reflexivity.
  - reflexivity.
  - exact H.
Defined.

(** C1 (as stated, refuted): button 0 is released and button 1 pressed
    between [A] and [B]; the two states differ at the indices 0 and 1, and the
    loop emits no event for either. *)
Lemma loop_events_misses_edges :
  let A := true :: replicate 14 false in
  let B := false :: true :: replicate 13 false in
  length A = length B /\
  A !! 0 <> B !! 0 /\ A !! 1 <> B !! 1 /\
  diff_spec A B = [mkButtonEvent 0 Released; mkButtonEvent 1 Pressed] /\
  loop_events A B = Done [].
Proof. repeat split; done. Qed.

(** C3 (as amended): for button 0, the one the loop watches, over every run
    of N >= 1 completed iterations in which the button reads as held
    throughout, [prev_states[0]] being false before the run, the rising-edge
    branch is taken exactly once, in the first iteration, and never again
    while the button stays held. The iteration after the run logs nothing
    either, be the button still held or released: the loop has no Released
    event, and it logs nothing for the other buttons. *)
Theorem hold_fires_once (st : LoopState) (run : list Tick) :
  loop_wf st ->
  prev_states st !! 0 = Some false ->
  run <> [] ->
  length (poll_trace run st) = length run ->
  Forall (held 0) (poll_trace run st) ->
  Forall (fun s => fired s = fired st ++ [pressed0]) (poll_trace run st) /\
  (forall s i, s ∈ poll_trace run st -> i <> 0 ->
               edges_of i (fired s) = edges_of i (fired st)) /\
  (forall s t s', last (poll_trace run st) = Some s ->
                  iteration t s = Done (Continue s') ->
                  fired s' = fired st ++ [pressed0]).
Proof.
  intros Hwf Hprev Hne Hlen Hheld.
  destruct run as [|t run]; [done|].
  apply poll_trace_cons_inv in Hlen as (st1 & Hit & Htr & Hlen).
  rewrite Htr in *. apply Forall_cons in Hheld as [Hst1 Hheld].
  destruct (iteration_continue _ _ _ Hwf Hit) as (Hwf1 & Hsame & evs & Hevs & Hlog).
  assert (Hprev1 : prev_states st1 !! 0 = Some true) by (by rewrite Hsame).
  assert (evs = [pressed0]) as ->.
  { destruct (prev_states st) as [|p prev]; [done|].
    destruct (prev_states st1) as [|c current]; [done|].
    rewrite loop_events_cons in Hevs. simpl in *. by simplify_eq. }
  pose proof (poll_trace_held run st1 Hwf1 Hprev1 Hlen Hheld) as Hrest.
  assert (Hall : Forall (fun s => fired s = fired st ++ [pressed0])
                   (st1 :: poll_trace run st1)).
  { constructor; [done|]. eapply Forall_impl; [exact Hrest|].
    intros s Hs. simpl in Hs. congruence. }
  split; [exact Hall|]. split.
  - intros s i Hs Hi. eapply Forall_forall in Hall; [|exact Hs].
    rewrite Hall, edges_of_app. unfold edges_of at 2.
    rewrite filter_cons. simpl. case_decide; [done|]. by rewrite app_nil_r.
  - intros s t' s' Hlast Hit'.
    assert (Hs : s ∈ st1 :: poll_trace run st1) by (by eapply last_Some_elem_of).
    assert (loop_wf s /\ prev_states s !! 0 = Some true) as [Hwfs Hps].
    { apply elem_of_cons in Hs as [->|Hs]; [done|].
      pose proof (poll_trace_held_inv run st1 Hwf1 Hprev1 Hlen Hheld) as Hinv.
      eapply Forall_forall in Hinv; [exact Hinv|exact Hs]. }
    eapply Forall_forall in Hall; [|exact Hs].
    destruct (iteration_continue _ _ _ Hwfs Hit') as (_ & _ & evs' & Hevs' & Hlog').
    destruct (prev_states s) as [|p prev]; [done|].
    destruct (prev_states s') as [|c current]; [done|].
    rewrite loop_events_cons in Hevs'. simpl in Hps. simplify_eq.
    rewrite Hlog', Hall. rewrite andb_false_r. by rewrite app_nil_r.
Qed.

(** The amended C3 on a run of three iterations, the second without data. *)
Lemma hold_fires_once_witness :
  Forall (fun s => fired s = [pressed0])
    (poll_trace [tick_down; tick_no_data; tick_down] (loop_start deck0)).
Proof.
  destruct (hold_fires_once (loop_start deck0)
              [tick_down; tick_no_data; tick_down]) as [H _].
  - split; reflexivity.
  - reflexivity.
  - discriminate.
  - reflexivity.
  - repeat constructor.
  - exact H.
Defined.

(** C3 (as stated, refuted): buttons 0 and 1 are pressed together, held for
    two iterations and released. Over the whole run the loop logs one Pressed
    event for button 0 and nothing else: no Pressed event for button 1, and
    no Released event for either button once the state is false again. *)
Lemma hold_and_release_log :
  let trace := poll_trace [tick_down; tick_down; tick_up] (loop_start deck0) in
  (fun s => take 2 (button_states (streamdeck s))) <$> trace =
    [[true; true]; [true; true]; [false; false]] /\
  fired <$> trace = [[pressed0]; [pressed0]; [pressed0]] /\
  (fun s => edges_of 1 (fired s)) <$> trace = [[]; []; []] /\
  (fun s => edges_of 0 (fired s)) <$> trace = [[Pressed]; [Pressed]; [Pressed]].
Proof. repeat split; vm_compute; reflexivity. Qed.

(** *** The event stream *)

Lemma poll_once_ticked r s s' evs emitted :
  session_wf s ->
  poll_once r s = Done (Ticked s' evs emitted) ->
  session_wf s' /\
  last_states s' = button_states (session_deck s') /\
  evs = diff_spec (last_states s) (last_states s') /\
  emitted = match evs with [] => None | _ :: _ => Some (mkPayload (last_states s')) end.
Proof.
  intros [Hsd Hlast] Hp. unfold poll_once in Hp.
  destruct (read_buttons_returns r _ Hsd) as (res & sd & Hrd & Hsd' & _ & Hres).
  rewrite Hrd in Hp. cbn [mbind outcome_bind] in Hp.
  destruct res as [current|e]; [subst current|done].
  injection Hp as <- <- <-. simpl. by repeat split.
Qed.

Lemma session_after_wf reads : forall s,
  session_wf s -> session_wf (session_after reads s).
Proof.
  induction reads as [|r reads IH]; intros s Hwf; simpl; [done|].
  destruct (poll_once r s) as [[s' evs emitted|e]|] eqn:Hp; [|done..].
  apply IH. by eapply poll_once_ticked.
Qed.

Lemma new_session_wf dev : session_wf (new_session dev).
Proof. split; apply length_replicate. Qed.

Lemma diff_spec_nonempty_edge (A B : list bool) ev :
  length A = length B ->
  ev ∈ diff_spec A B ->
  exists a b, A !! index ev = Some a /\ B !! index ev = Some b /\ a <> b.
Proof.
  intros Hlen Hev. apply (diff_spec_exact A B Hlen).
  apply list_elem_of_fmap. by exists ev.
Qed.

(** C7: on every run of the polling thread from a fresh session, a payload
    put on the button-state stream is the full button state the device object
    holds after that tick, an ordered sequence of exactly 15 booleans, and the
    tick that emits it has at least one edge: some button differs from its
    state before the tick. *)
Theorem payload_is_full_state_on_edge
    (dev : HidDevice) (before : list HidRead) (r : HidRead)
    (s' : Session) (evs : list ButtonEvent) (p : ButtonStatePayload) :
  poll_once r (session_after before (new_session dev)) = Done (Ticked s' evs (Some p)) ->
  length (buttons p) = 15 /\
  buttons p = button_states (session_deck s') /\
  evs <> [] /\
  exists i a b,
    last_states (session_after before (new_session dev)) !! i = Some a /\
    buttons p !! i = Some b /\ a <> b.
Proof.
  intros Hp.
  pose proof (session_after_wf before _ (new_session_wf dev)) as Hwf.
  destruct (poll_once_ticked _ _ _ _ _ Hwf Hp) as ([Hsd' Hlast'] & Hsame & Hevs & Hem).
  destruct evs as [|ev evs]; [done|]. injection Hem as ->. simpl.
  repeat split; [done..|].
  exists (index ev). apply (diff_spec_nonempty_edge _ _ ev).
  - destruct Hwf as [_ Hl]. by rewrite Hl, Hlast'.
  - rewrite <- Hevs. apply elem_of_cons. by left.
Qed.

(** C7 on a run: a press after a tick without data puts one payload on the
    stream. *)
Lemma payload_is_full_state_on_edge_witness :
  length (buttons (mkPayload (true :: true :: replicate 13 false))) = 15.
Proof.
  destruct (payload_is_full_state_on_edge 0 [Delivered []]
              (Delivered [x01; x00; x00; x00; x01; x01])
              (mkSession (mkStreamDeck 0 (true :: true :: replicate 13 false))
                         (true :: true :: replicate 13 false))
              [mkButtonEvent 0 Pressed; mkButtonEvent 1 Pressed]
              (mkPayload (true :: true :: replicate 13 false))) as [H _].
  - reflexivity.
  - exact H.
Defined.

(** A tick without any edge emits nothing. *)
Lemma poll_once_no_edge_silent r s s' evs emitted :
  session_wf s ->
  poll_once r s = Done (Ticked s' evs emitted) ->
  last_states s' = last_states s ->
  evs = [] /\ emitted = None.
Proof.
  intros Hwf Hp Hsame.
  destruct (poll_once_ticked _ _ _ _ _ Hwf Hp) as (_ & _ & -> & ->).
  by rewrite Hsame, diff_spec_same.
Qed.

End Poller.

Module Actions.

(** *** Actions and the registry ([actions/mod.rs], as the README uses it) *)

Inductive ParamValue : Type :=
  | PString (s : string)
  | PInt (n : Z).

(** [{ "type": ..., "params": { ... } }] *)
Record Action : Type := mkAction {
  action_type : string;
  params : gmap string ParamValue;
}.

(** [Action::new("category.action_name")] *)
Definition Action_new (type_key : string) : Action :=
  mkAction type_key ∅.

Definition get_string_param (a : Action) (key : string) : option string :=
  match params a !! key with
  | Some (PString s) => Some s
  | _ => None
  end.

Definition get_int_param (a : Action) (key : string) : option Z :=
  match params a !! key with
  | Some (PInt n) => Some n
  | _ => None
  end.

Inductive DispatchError : Type :=
  | NotFound (type_key : string)
  | HandlerFailed (type_key : string) (message : string).

Section Registry.

(** What a handler can reach through [&AppHandle], and the handlers: every
    one has the signature [fn(&Action, &AppHandle) -> Result<(), String>]. *)
Context {App : Type} {Handler : Type}.
Variable call : Handler -> Action -> App -> Result unit string * App.

(** The application with the log of the handlers invoked so far. *)
Record Run : Type := mkRun {
  app : App;
  invoked : list (Handler * Action);
}.

(** [self.register("category.action_name", handlers::action_name)]:
    "overwrites any existing handler for that key". *)
Definition register (type_key : string) (h : Handler)
    (registry : gmap string Handler) : gmap string Handler :=
  <[type_key := h]> registry.

(** Modelled from the spec: [dispatch(action, context)], whose code
    ([actions/mod.rs]) is not among the sources. It "looks up action.type;
    if absent, returns a NotFound error naming the unknown key (never
    invokes a default silently); if present, invokes the handler with the
    action's params and the context", a failure of the handler becoming
    [HandlerFailed(type_key, message)]. *)
Definition dispatch (registry : gmap string Handler) (a : Action) (r : Run)
  : Result unit DispatchError * Run :=
  match registry !! action_type a with
  | None => (Err (NotFound (action_type a)), r)
  | Some h =>
      let '(res, app') := call h a (app r) in
      (match res with
       | Ok _ => Ok ()
       | Err message => Err (HandlerFailed (action_type a) message)
       end,
       mkRun app' (invoked r ++ [(h, a)]))
  end.

Lemma dispatch_registered registry a r h :
  registry !! action_type a = Some h ->
  dispatch registry a r =
    (match (call h a (app r)).1 with
     | Ok _ => Ok ()
     | Err message => Err (HandlerFailed (action_type a) message)
     end,
     mkRun (call h a (app r)).2 (invoked r ++ [(h, a)])).
Proof. intros Hh. unfold dispatch. rewrite Hh. by destruct (call h a (app r)). Qed.

Lemma lookup_register_twice registry type_key h1 h2 :
  register type_key h2 (register type_key h1 registry) !! type_key = Some h2.
Proof. unfold register. by rewrite lookup_insert_eq. Qed.

(** C5: dispatching an action whose type key has no registered handler
    returns [NotFound] naming that key, invokes no handler and leaves the
    application as it was; for a registered key exactly the handler
    registered last for the key is invoked, once, on the action. *)
Theorem dispatch_unknown_or_current :
  (forall registry a r,
     registry !! action_type a = None ->
     dispatch registry a r = (Err (NotFound (action_type a)), r)) /\
  (forall registry a r h,
     registry !! action_type a = Some h ->
     invoked (dispatch registry a r).2 = invoked r ++ [(h, a)] /\
     app (dispatch registry a r).2 = (call h a (app r)).2) /\
  (forall registry a r h1 h2,
     invoked (dispatch (register (action_type a) h2
                          (register (action_type a) h1 registry)) a r).2
       = invoked r ++ [(h2, a)]).
Proof.
  split; [|split].
  - intros registry a r Hnone. unfold dispatch. by rewrite Hnone.
  - intros registry a r h Hh. by rewrite (dispatch_registered _ _ _ _ Hh).
  - intros registry a r h1 h2.
    by rewrite (dispatch_registered _ _ _ _ (lookup_register_twice _ _ h1 h2)).
Qed.

End Registry.

(** The scenario of the spec: ["audio.volume_up"] dispatched on a registry
    that holds the built-in ["none"] only. *)
Lemma dispatch_volume_up_unregistered :
  let call := fun (_ : unit) (_ : Action) (w : nat) => (Ok (), w) in
  dispatch call (register "none" () ∅) (Action_new "audio.volume_up") (mkRun 0 [])
    = (Err (NotFound "audio.volume_up"), mkRun 0 []).
Proof.
  intros call.
  apply (proj1 (dispatch_unknown_or_current call)).
  reflexivity.
Defined.

End Actions.

Module Commands.
Import Hid.

(** *** The managed state and the commands ([commands/streamdeck.rs])

    [AppState { streamdeck: Mutex<Option<StreamDeck>> }]. The log [closed]
    is not a field of the Rust struct: it records the HID handles closed so
    far, a [StreamDeck] closing its device when it is dropped. *)
Record AppState : Type := mkAppState {
  streamdeck : option StreamDeck;
  closed : list HidDevice;
}.

(** [.manage(AppState { streamdeck: Mutex::new(None) })] *)
Definition AppState_new : AppState := mkAppState None [].

Inductive SessionState : Type := Disconnected | Connected.

Definition session_state (state : AppState) : SessionState :=
  match streamdeck state with
  | None => Disconnected
  | Some _ => Connected
  end.

(** Overwriting [*guard] drops the value it held. *)
Definition drop_deck (old : option StreamDeck) (log : list HidDevice) : list HidDevice :=
  match old with
  | Some sd => log ++ [device sd]
  | None => log
  end.

Section Transport.

(** [StreamDeck::connect(&device_path)] of [hid/device.rs]: the transport
    open, which the sources only call. *)
Variable StreamDeck_connect : string -> Result StreamDeck string.

(** [let streamdeck = StreamDeck::connect(&device_path)?;
     *state.streamdeck.lock().unwrap() = Some(streamdeck); Ok(())] *)
Definition connect_device (device_path : string) (state : AppState)
  : Result unit string * AppState :=
  match StreamDeck_connect device_path with
  | Err e => (Err e, state)
  | Ok sd =>
      (Ok (), mkAppState (Some sd) (drop_deck (streamdeck state) (closed state)))
  end.

End Transport.

(** Modelled from the spec: the [disconnect_device] command, which the guide
    only asks to update "similarly". "Disconnecting [...] closes the
    transport"; "invoking it while already Disconnected is a no-op success,
    not an error". *)
Definition disconnect_device (state : AppState) : Result unit string * AppState :=
  match streamdeck state with
  | None => (Ok (), state)
  | Some sd => (Ok (), mkAppState None (closed state ++ [device sd]))
  end.

End Commands.

Module UseStreamDeck.
Import Hid Commands.

(** *** The composable [useStreamDeck] of the front end *)

Record DeviceInfo : Type := mkDeviceInfo {
  path : string;
  product_name : string;
  serial_number : option string;
  vendor_id : N;
  product_id : N;
}.

(** The function [listen] resolves to, named by the listener it removes. *)
Definition UnlistenFn : Type := nat.

(** The refs [devices], [connectedDevice], [buttonStates] and the variable
    [unlistenFn]. *)
Record Composable : Type := mkComposable {
  devices : list DeviceInfo;
  connectedDevice : option DeviceInfo;
  buttonStates : list bool;
  unlistenFn : option UnlistenFn;
}.

(** The composable with what it talks to: the backend behind [invoke], and
    the event bus behind [listen] (the listeners registered, the next
    listener id, and the calls of unlisten functions made so far). *)
Record World : Type := mkWorld {
  ui : Composable;
  backend : AppState;
  listeners : list UnlistenFn;
  next_listener : UnlistenFn;
  unlisten_calls : list UnlistenFn;
}.

Definition set_ui (c : Composable) (w : World) : World :=
  mkWorld c (backend w) (listeners w) (next_listener w) (unlisten_calls w).

Definition set_backend (b : AppState) (w : World) : World :=
  mkWorld (ui w) b (listeners w) (next_listener w) (unlisten_calls w).

(** [useStreamDeck()] *)
Definition useStreamDeck : Composable :=
  mkComposable [] None (replicate 15 false) None.

Definition World_new : World :=
  mkWorld useStreamDeck AppState_new [] 0 [].

(** [devices.value.find((d) => d.path === devicePath)]: the first match. *)
Definition find_device (devicePath : string) (ds : list DeviceInfo) : option DeviceInfo :=
  snd <$> list_find (fun d => path d = devicePath) ds.

Section Invoke.

Variable StreamDeck_connect : string -> Result StreamDeck string.

(** [connect(devicePath)]: a rejected [invoke] rejects the call at the
    [await], before anything else runs. *)
Definition connect (devicePath : string) (w : World) : Result unit string * World :=
  match connect_device StreamDeck_connect devicePath (backend w) with
  | (Err e, b) => (Err e, set_backend b w)
  | (Ok _, b) =>
      let w := set_backend b w in
      match find_device devicePath (devices (ui w)) with
      | Some device =>
          (Ok (), set_ui (mkComposable (devices (ui w)) (Some device)
                            (buttonStates (ui w)) (unlistenFn (ui w))) w)
      | None => (Ok (), w)
      end
  end.

End Invoke.

(** [disconnect()] *)
Definition disconnect (w : World) : Result unit string * World :=
  match disconnect_device (backend w) with
  | (Err e, b) => (Err e, set_backend b w)
  | (Ok _, b) =>
      let w := set_backend b w in
      (Ok (), set_ui (mkComposable (devices (ui w)) None
                        (replicate 15 false) (unlistenFn (ui w))) w)
  end.

(** [setupButtonListener()], up to its [await]: [listen] registers the
    handler; the promise it returns is still pending. *)
Definition setup_listen (w : World) : UnlistenFn * World :=
  (next_listener w,
   mkWorld (ui w) (backend w) (listeners w ++ [next_listener w])
           (S (next_listener w)) (unlisten_calls w)).

(** [setupButtonListener()], after the [await]: [unlistenFn = ...]. *)
Definition setup_resume (f : UnlistenFn) (w : World) : World :=
  set_ui (mkComposable (devices (ui w)) (connectedDevice (ui w))
            (buttonStates (ui w)) (Some f)) w.

Definition setupButtonListener (w : World) : World :=
  let '(f, w) := setup_listen w in setup_resume f w.

(** Calling an unlisten function removes its listener. *)
Definition call_unlisten (f : UnlistenFn) (w : World) : World :=
  mkWorld (ui w) (backend w) (filter (fun g => g <> f) (listeners w))
          (next_listener w) (unlisten_calls w ++ [f]).

(** The backend emits "streamdeck://button-state": every registered
    listener runs the handler [buttonStates.value = event.payload.buttons]. *)
Definition emit_button_state (payload : list bool) (w : World) : World :=
  match listeners w with
  | [] => w
  | _ :: _ =>
      set_ui (mkComposable (devices (ui w)) (connectedDevice (ui w))
                payload (unlistenFn (ui w))) w
  end.

(** [cleanupButtonListener()] *)
Definition cleanupButtonListener (w : World) : World :=
  match unlistenFn (ui w) with
  | Some f =>
      let w := call_unlisten f w in
      set_ui (mkComposable (devices (ui w)) (connectedDevice (ui w))
                (buttonStates (ui w)) None) w
  | None => w
  end.

(** A transport on which only the path ["hid#1"] opens. *)
Definition one_device (p : string) : Result StreamDeck string :=
  if decide (p = "hid#1") then Ok (mkStreamDeck 1 (replicate 15 false))
  else Err "device not found".

Definition mk2 : DeviceInfo :=
  mkDeviceInfo "hid#1" "Stream Deck MK.2" None 4057 128.

(** *** [connect] *)

Lemma set_backend_same w : set_backend (backend w) w = w.
Proof. by destruct w. Qed.

Lemma connect_rejected StreamDeck_connect devicePath e w :
  StreamDeck_connect devicePath = Err e ->
  connect StreamDeck_connect devicePath w = (Err e, w).
Proof.
  intros Hopen. unfold connect, connect_device. rewrite Hopen.
  by rewrite set_backend_same.
Qed.

(** C4: when the transport open fails for the path, [connect] returns the
    transport's error and changes nothing: a session that was Disconnected is
    Disconnected afterwards, [connectedDevice] stays null, the managed state
    holds no device object (no button states are created), no handle is
    closed and the button states of the front end are the ones before. *)
Theorem connect_open_failure
    (StreamDeck_connect : string -> Result StreamDeck string)
    (devicePath e : string) (w : World) :
  StreamDeck_connect devicePath = Err e ->
  session_state (backend w) = Disconnected ->
  connectedDevice (ui w) = None ->
  let r := connect StreamDeck_connect devicePath w in
  r = (Err e, w) /\
  session_state (backend r.2) = Disconnected /\
  connectedDevice (ui r.2) = None /\
  streamdeck (backend r.2) = None /\
  closed (backend r.2) = closed (backend w) /\
  buttonStates (ui r.2) = buttonStates (ui w).
Proof.
  intros Hopen Hdisc Hnull r. subst r.
  rewrite (connect_rejected _ _ _ _ Hopen). simpl.
  repeat split; try done.
  unfold session_state in Hdisc. by destruct (streamdeck (backend w)).
Qed.

(** C4 at the path ["nonexistent-path"] on a fresh application. *)
Lemma connect_open_failure_witness :
  connect one_device "nonexistent-path" World_new = (Err "device not found", World_new).
Proof.
  destruct (connect_open_failure one_device "nonexistent-path"
              "device not found" World_new) as [H _].
  - reflexivity.
  - reflexivity.
  - reflexivity.
  - exact H.
Defined.

(** C8: when the backend call succeeds, [connect] returns success and leaves
    the device list as it is; [connectedDevice] becomes the first entry of
    the list whose path is [devicePath], and when the list has no such entry
    it keeps its value, so that it remains null although the connection was
    made. *)
Theorem connect_success_selects_device
    (StreamDeck_connect : string -> Result StreamDeck string)
    (devicePath : string) (sd : StreamDeck) (w : World) :
  StreamDeck_connect devicePath = Ok sd ->
  let r := connect StreamDeck_connect devicePath w in
  r.1 = Ok () /\
  streamdeck (backend r.2) = Some sd /\
  devices (ui r.2) = devices (ui w) /\
  (forall i d,
     devices (ui w) !! i = Some d -> path d = devicePath ->
     (forall j d', devices (ui w) !! j = Some d' -> j < i -> path d' <> devicePath) ->
     connectedDevice (ui r.2) = Some d) /\
  ((forall d, d ∈ devices (ui w) -> path d <> devicePath) ->
   connectedDevice (ui r.2) = connectedDevice (ui w) /\
   (connectedDevice (ui w) = None -> connectedDevice (ui r.2) = None)).
Proof.
  intros Hopen r. subst r. unfold connect, connect_device. rewrite Hopen.
  cbn [set_backend ui backend devices]. unfold find_device.
  destruct (list_find _ (devices (ui w))) as [[k dk]|] eqn:Hfind; simpl.
  - apply list_find_Some in Hfind as (Hk & Hpk & Hfirst).
    do 3 (split; [done|]). split.
    + intros i d Hi Hp Hmin.
      destruct (Nat.lt_total i k) as [Hlt|[->|Hgt]].
      * by destruct (Hfirst i d).
      * congruence.
      * by destruct (Hmin k dk).
    + intros Hnone. exfalso.
      eapply Hnone; [|exact Hpk]. by eapply list_elem_of_lookup_2.
  - apply list_find_None in Hfind.
    do 3 (split; [done|]). split; [|done].
    intros i d Hi Hp _. exfalso.
    eapply Forall_forall in Hfind; [exact (Hfind Hp)|].
    by eapply list_elem_of_lookup_2.
Qed.

(** C8 on a list that holds the device, and on an empty list. *)
Lemma connect_success_selects_device_witness :
  let listed := set_ui (mkComposable [mk2] None (replicate 15 false) None) World_new in
  connectedDevice (ui (connect one_device "hid#1" listed).2) = Some mk2 /\
  connectedDevice (ui (connect one_device "hid#1" World_new).2) = None.
Proof.
  intros listed. split.
  - destruct (connect_success_selects_device one_device "hid#1"
                (mkStreamDeck 1 (replicate 15 false)) listed)
      as (_ & _ & _ & H & _); [reflexivity|].
    apply (H 0 mk2); [reflexivity..|]. intros j d' _ Hj. lia.
  - reflexivity.
Defined.

(** *** [disconnect] *)

(** After any [disconnect] a further one succeeds and changes nothing. *)
Lemma disconnect_twice w :
  disconnect (disconnect w).2 = (Ok (), (disconnect w).2).
Proof.
  unfold disconnect, disconnect_device.
  destruct w as [c [[sd|] log] ls n calls]; reflexivity.
Qed.

(** A connected session is closed by the first [disconnect], once. *)
Lemma disconnect_closes_once w sd :
  streamdeck (backend w) = Some sd ->
  closed (backend (disconnect w).2) = closed (backend w) ++ [device sd] /\
  closed (backend (disconnect (disconnect w).2).2) = closed (backend w) ++ [device sd].
Proof.
  intros Hsd. rewrite disconnect_twice. simpl.
  unfold disconnect, disconnect_device. rewrite Hsd. done.
Qed.

(** C6: [disconnect] on a session that is already Disconnected returns
    success, leaves the session Disconnected ([connectedDevice] null, no
    device object in the managed state) and closes no handle: the transport's
    close is not invoked again. *)
Theorem disconnect_when_disconnected (w : World) :
  session_state (backend w) = Disconnected ->
  (disconnect w).1 = Ok () /\
  session_state (backend (disconnect w).2) = Disconnected /\
  connectedDevice (ui (disconnect w).2) = None /\
  backend (disconnect w).2 = backend w /\
  closed (backend (disconnect w).2) = closed (backend w).
Proof.
  unfold session_state, disconnect, disconnect_device.
  destruct (streamdeck (backend w)) eqn:Hsd; [done|]. intros _.
  simpl. by rewrite Hsd.
Qed.

(** C6 after a connect and a first disconnect: the handle was closed once,
    and the second disconnect leaves the log of closed handles as it is. *)
Lemma disconnect_when_disconnected_witness :
  let w1 := (disconnect (connect one_device "hid#1" World_new).2).2 in
  closed (backend w1) = [1] /\
  (disconnect w1).1 = Ok () /\
  closed (backend (disconnect w1).2) = [1].
Proof.
  intros w1. split; [reflexivity|].
  destruct (disconnect_when_disconnected w1) as (Hok & _ & _ & _ & Hclosed).
  - reflexivity.
  - split; [exact Hok|exact Hclosed].
Defined.

(** *** The button listener *)

Lemma cleanup_without_handle w :
  unlistenFn (ui w) = None -> cleanupButtonListener w = w.
Proof. intros Hnone. unfold cleanupButtonListener. by rewrite Hnone. Qed.

Lemma cleanup_clears_handle w : unlistenFn (ui (cleanupButtonListener w)) = None.
Proof.
  unfold cleanupButtonListener.
  destruct (unlistenFn (ui w)) eqn:Hf; [done|]. by rewrite Hf.
Qed.

(** C10: one call of [cleanupButtonListener] invokes the stored unlisten
    function exactly once and sets the handle to null; every further call
    changes nothing and invokes nothing; and a call made before
    [setupButtonListener] has completed (the handle still null, the [listen]
    promise pending or not yet made) changes nothing either. *)
Theorem cleanupButtonListener_idempotent :
  (forall w f,
     unlistenFn (ui w) = Some f ->
     unlisten_calls (cleanupButtonListener w) = unlisten_calls w ++ [f] /\
     unlistenFn (ui (cleanupButtonListener w)) = None) /\
  (forall w n,
     Nat.iter n cleanupButtonListener (cleanupButtonListener w)
       = cleanupButtonListener w) /\
  (forall w,
     unlistenFn (ui w) = None ->
     cleanupButtonListener w = w /\
     cleanupButtonListener (setup_listen w).2 = (setup_listen w).2).
Proof.
  split; [|split].
  - intros w f Hf. unfold cleanupButtonListener. by rewrite Hf.
  - intros w n. induction n as [|n IH]; [done|].
    simpl. rewrite IH. apply cleanup_without_handle, cleanup_clears_handle.
  - intros w Hnone. split; by apply cleanup_without_handle.
Qed.

(** Once the only listener is cleaned up, events reach the grid no more. *)
Lemma emit_after_cleanup payload :
  let w := cleanupButtonListener (setupButtonListener World_new) in
  buttonStates (ui (emit_button_state payload (setupButtonListener World_new))) = payload /\
  emit_button_state payload w = w.
Proof. done. Qed.

(** C10 on a fresh application: set up, clean up twice. *)
Lemma cleanupButtonListener_idempotent_witness :
  let w := setupButtonListener World_new in
  listeners w = [0] /\
  listeners (cleanupButtonListener w) = [] /\
  unlisten_calls (cleanupButtonListener (cleanupButtonListener w)) = [0].
Proof.
  intros w. split; [reflexivity|]. split; [reflexivity|].
  destruct cleanupButtonListener_idempotent as (_ & Hagain & _).
  pose proof (Hagain w 1) as H. simpl in H. rewrite H. reflexivity.
Defined.

End UseStreamDeck.


Module Reports.
Import Hid.

(** *** The HID report formats of the guide's quick reference

    "Each button is 1 byte: 0x00 = released, 0x01 = pressed". *)
Definition byte_of_bool (b : bool) : byte :=
  if b then x01 else x00.

(** Stream Deck MK.2: byte 0 the report id (0x01), bytes 1-3 a header,
    bytes 4-18 the button states; [rest] is what the device sends after. *)
Definition mk2_report (header : list byte) (states : list bool) (rest : list byte)
  : list byte :=
  x01 :: header ++ (byte_of_bool <$> states) ++ rest.

(** Stream Deck Original: byte 0 the report id (0x01), bytes 1-15 the button
    states. *)
Definition original_report (states : list bool) (rest : list byte) : list byte :=
  x01 :: (byte_of_bool <$> states) ++ rest.

(** The states [read_buttons] returns, whatever the outcome. *)
Definition returned_states (o : Outcome (Result (list bool) string * StreamDeck))
  : option (list bool) :=
  match o with
  | Done (Ok states, _) => Some states
  | _ => None
  end.

Lemma nonzero_byte_of_bool b : nonzero (byte_of_bool b) = b.
Proof. by destruct b. Qed.

Lemma decoded_lookup report i :
  i < BUTTON_COUNT ->
  decoded report !! i = Some (nonzero (nth (offset + i) report x00)).
Proof.
  intros Hi. unfold decoded. by rewrite list_lookup_fmap, lookup_seq_lt.
Qed.

Lemma decoded_ext report1 report2 :
  (forall i, i < BUTTON_COUNT ->
             nonzero (nth (offset + i) report1 x00)
               = nonzero (nth (offset + i) report2 x00)) ->
  decoded report1 = decoded report2.
Proof.
  intros Hwin. unfold decoded. apply list_fmap_ext.
  intros j i [-> Hi]%lookup_seq. simpl. by apply Hwin.
Qed.

Lemma nth_block (pre : list byte) (states : list bool) (rest : list byte) i :
  i < length states ->
  nth (length pre + i) (pre ++ (byte_of_bool <$> states) ++ rest) x00
    = byte_of_bool (nth i states false).
Proof.
  intros Hi. rewrite !nth_lookup.
  rewrite lookup_app_r by lia.
  replace (length pre + i - length pre) with i by lia.
  rewrite lookup_app_l by (rewrite length_fmap; lia).
  rewrite list_lookup_fmap.
  destruct (lookup_lt_is_Some_2 states i Hi) as [b ->]. done.
Qed.

(** Decoding an MK.2 report gives back the 15 states it was built from,
    whatever the header, the bytes after the button block and the states
    stored before. *)
Theorem read_buttons_mk2_round_trip
    (header rest : list byte) (states : list bool) (self : StreamDeck) :
  well_formed self ->
  length header = 3 ->
  length states = BUTTON_COUNT ->
  read_buttons (Delivered (mk2_report header states rest)) self =
    Done (Ok states, set_button_states states self).
Proof.
  intros Hwf Hh Hs. rewrite read_buttons_delivered by done.
  assert (decoded (mk2_report header states rest) = states) as ->; [|done].
  apply list_eq. intros i.
  destruct (decide (i < BUTTON_COUNT)) as [Hi|Hi].
  - rewrite decoded_lookup by done. unfold mk2_report.
    change (x01 :: header ++ (byte_of_bool <$> states) ++ rest)
      with ((x01 :: header) ++ (byte_of_bool <$> states) ++ rest).
    replace (offset + i) with (length (x01 :: header) + i)
      by (simpl; rewrite Hh; done).
    rewrite nth_block, nonzero_byte_of_bool by lia.
    rewrite nth_lookup.
    destruct (lookup_lt_is_Some_2 states i) as [b ->]; [lia|done].
  - rewrite !lookup_ge_None_2; [done|lia|rewrite length_decoded; lia].
Qed.

Lemma read_buttons_mk2_round_trip_witness :
  read_buttons
    (Delivered (mk2_report [x00; x00; x00] (true :: replicate 14 false) [x07]))
    (mkStreamDeck 0 (replicate 15 false))
  = Done (Ok (true :: replicate 14 false), mkStreamDeck 0 (true :: replicate 14 false)).
Proof.
  apply (read_buttons_mk2_round_trip [x00; x00; x00] [x07]
           (true :: replicate 14 false) (mkStreamDeck 0 (replicate 15 false)));
    reflexivity.
Defined.

(** With the offset 4 of the MK.2, a report of the Stream Deck Original is
    read three buttons off: button [i] shows the Original's button [i + 3],
    and the last three buttons show the bytes that follow the Original's
    button block. *)
Theorem read_buttons_original_shifted
    (states : list bool) (rest : list byte) (self : StreamDeck) (i : nat) :
  well_formed self ->
  length states = BUTTON_COUNT ->
  i < BUTTON_COUNT ->
  exists current,
    read_buttons (Delivered (original_report states rest)) self =
      Done (Ok current, set_button_states current self) /\
    current !! i =
      Some (if decide (i < 12) then nth (i + 3) states false
            else nonzero (nth (i - 12) rest x00)).
Proof.
  intros Hwf Hs Hi. eexists. rewrite read_buttons_delivered by done.
  split; [done|]. rewrite decoded_lookup by done. f_equal.
  unfold original_report, offset, BUTTON_COUNT in *.
  change (x01 :: (byte_of_bool <$> states) ++ rest)
    with ([x01] ++ (byte_of_bool <$> states) ++ rest).
  case_decide as Hlt.
  - replace (4 + i) with (length [x01] + (i + 3)) by (simpl; lia).
    by rewrite nth_block, nonzero_byte_of_bool by lia.
  - f_equal. rewrite !nth_lookup. f_equal.
    rewrite !lookup_app_r; rewrite ?length_fmap; simpl; try lia.
    f_equal. lia.
Qed.

Lemma read_buttons_original_shifted_witness :
  exists current,
    read_buttons
      (Delivered (original_report (replicate 3 false ++ true :: replicate 11 false) []))
      (mkStreamDeck 0 (replicate 15 false))
    = Done (Ok current, set_button_states current (mkStreamDeck 0 (replicate 15 false))) /\
    current !! 0 = Some true.
Proof.
  apply (read_buttons_original_shifted
           (replicate 3 false ++ true :: replicate 11 false) []
           (mkStreamDeck 0 (replicate 15 false)) 0).
  - reflexivity.
  - reflexivity.
  - unfold BUTTON_COUNT. lia.
Defined.

(** What a read of at least one byte returns depends only on which of the
    bytes [offset .. offset + 14] of the report are zero: not on their values,
    not on the other bytes, and not on the states stored before, all 15 of
    which are overwritten. *)
Theorem read_buttons_window_only
    (report1 report2 : list byte) (self1 self2 : StreamDeck) :
  well_formed self1 -> well_formed self2 ->
  report1 <> [] -> report2 <> [] ->
  (forall i, i < BUTTON_COUNT ->
             nonzero (nth (offset + i) report1 x00)
               = nonzero (nth (offset + i) report2 x00)) ->
  returned_states (read_buttons (Delivered report1) self1) =
  returned_states (read_buttons (Delivered report2) self2) /\
  returned_states (read_buttons (Delivered report1) self1) = Some (decoded report1).
Proof.
  intros Hwf1 Hwf2 Hne1 Hne2 Hwin.
  rewrite !read_buttons_delivered by done. simpl.
  by rewrite (decoded_ext _ _ Hwin).
Qed.

Lemma read_buttons_window_only_witness :
  returned_states (read_buttons (Delivered [x01; x02; x03; x04; x01])
                     (mkStreamDeck 0 (replicate 15 true))) =
  returned_states (read_buttons (Delivered [x09; x00; x00; x00; x05; x00; x00])
                     (mkStreamDeck 0 (replicate 15 false))).
Proof.
  refine (proj1 (read_buttons_window_only _ _ _ _ _ _ _ _ _)).
  - reflexivity.
  - reflexivity.
  - discriminate.
  - discriminate.
  - intros i Hi. unfold BUTTON_COUNT in Hi.
    do 15 (destruct i as [|i]; [reflexivity|]). lia.
Defined.

(** Reading the same thing again changes nothing: a second call on the same
    device read returns the same result and leaves the device object as the
    first call left it. *)
Theorem read_buttons_again
    (r : HidRead) (self self' : StreamDeck) (res : Result (list bool) string) :
  well_formed self ->
  read_buttons r self = Done (res, self') ->
  read_buttons r self' = Done (res, self').
Proof.
  intros Hwf Hr. destruct r as [report|e].
  - destruct (decide (report = [])) as [->|Hne].
    + rewrite read_buttons_empty in Hr. by simplify_eq.
    + rewrite read_buttons_delivered in Hr by done. simplify_eq.
      rewrite read_buttons_delivered; [done| |done]. apply length_decoded.
  - simpl in *. by simplify_eq.
Qed.

Lemma read_buttons_again_witness :
  let self' := mkStreamDeck 0 (true :: replicate 14 false) in
  read_buttons (Delivered [x01; x00; x00; x00; x01]) self' =
    Done (Ok (true :: replicate 14 false), self').
Proof.
  intros self'.
  apply (read_buttons_again _ (mkStreamDeck 0 (replicate 15 false))); reflexivity.
Defined.

(** On a device object with its 15 states [read_buttons] never panics, keeps
    the 15 states and the handle, returns on success the very states it has
    stored, and returns an error exactly when the device read failed: the
    message is the read's, after "Read error: ", and nothing is stored. *)
Theorem read_buttons_outcomes (r : HidRead) (self : StreamDeck) :
  well_formed self ->
  exists res self',
    read_buttons r self = Done (res, self') /\
    well_formed self' /\ device self' = device self /\
    match res with
    | Ok current =>
        current = button_states self' /\ exists report, r = Delivered report
    | Err message =>
        self' = self /\
        exists e, r = ReadFailed e /\ message = String.append "Read error: " e
    end.
Proof.
  intros Hwf.
  destruct (read_buttons_returns r self Hwf) as (res & self' & Hr & Hwf' & Hdev & Hres).
  exists res, self'. do 3 (split; [done|]).
  destruct r as [report|e].
  - destruct res as [current|message]; [by eauto|].
    unfold read_buttons in Hr. case_decide; [|done].
    by destruct (store_buttons _ _ _).
  - simpl in Hr. simplify_eq. by eauto.
Qed.

Lemma read_buttons_outcomes_witness :
  exists res self',
    read_buttons (ReadFailed "unplugged") (mkStreamDeck 0 (replicate 15 false))
      = Done (res, self') /\ res = Err "Read error: unplugged".
Proof.
  destruct (read_buttons_outcomes (ReadFailed "unplugged")
              (mkStreamDeck 0 (replicate 15 false))) as (res & self' & Hr & _);
    [reflexivity|].
  exists res, self'. split; [exact Hr|].
  simpl in Hr. by simplify_eq.
Defined.

End Reports.

Module Loop.
Import Hid Poller.

(** *** The polling loop over a whole run *)

(** Button 0 of a state. *)
Definition button0 (states : list bool) : bool :=
  default false (states !! 0).


(** The last report of at least one byte that the ticks deliver. *)
Fixpoint last_report (ticks : list Tick) : option (list byte) :=
  match ticks with
  | [] => None
  | t :: rest =>
      match last_report rest, hid_read t with
      | Some report, _ => Some report
      | None, Delivered (b :: report) => Some (b :: report)
      | None, _ => None
      end
  end.

(** The state the loop is in after the completed iterations of a run. *)
Definition state_after (ticks : list Tick) (st : LoopState) : LoopState :=
  default st (last (poll_trace ticks st)).

(** The state of the device object after a delivery. *)
Definition current_of (report : list byte) (sd : StreamDeck) : list bool :=
  if decide (report = []) then button_states sd else decoded report.

Lemma set_button_states_same sd : set_button_states (button_states sd) sd = sd.
Proof. by destruct sd. Qed.

Lemma read_buttons_current report sd :
  well_formed sd ->
  read_buttons (Delivered report) sd =
    Done (Ok (current_of report sd), set_button_states (current_of report sd) sd).
Proof.
  intros Hwf. unfold current_of. case_decide as Hr.
  - subst. by rewrite read_buttons_empty, set_button_states_same.
  - by apply read_buttons_delivered.
Qed.

Lemma length_current_of report sd :
  well_formed sd -> length (current_of report sd) = BUTTON_COUNT.
Proof. intros Hwf. unfold current_of. case_decide; [done|apply length_decoded]. Qed.

Lemma rising_edge_button0 current prev :
  length current = BUTTON_COUNT -> length prev = BUTTON_COUNT ->
  rising_edge current prev = Done (button0 current && negb (button0 prev)).
Proof.
  intros Hc Hp. destruct current as [|c current]; [done|].
  destruct prev as [|p prev]; [done|]. apply rising_edge_cons.
Qed.

(** One iteration on a delivery, spelled out. *)
Lemma iteration_delivered t st report :
  loop_wf st ->
  hid_read t = Delivered report ->
  let current := current_of report (streamdeck st) in
  let sd := set_button_states current (streamdeck st) in
  iteration t st =
    Done (if button0 current && negb (button0 (prev_states st)) then
            match volume_up t with
            | Err e => Exit e (mkLoopState sd (prev_states st) (fired st ++ [pressed0]))
            | Ok _ => Continue (mkLoopState sd current (fired st ++ [pressed0]))
            end
          else Continue (mkLoopState sd current (fired st))).
Proof.
  intros [Hsd Hprev] Hread current sd. unfold iteration.
  rewrite Hread, read_buttons_current by done.
  cbn [mbind outcome_bind].
  rewrite rising_edge_button0 by (by try apply length_current_of).
  cbn [mbind outcome_bind]. fold current. fold sd.
  destruct (button0 current && negb (button0 (prev_states st))); [|done].
  by destruct (volume_up t).
Qed.

Lemma iteration_read_failed t st e :
  hid_read t = ReadFailed e ->
  iteration t st = Done (Exit (String.append "Read error: " e) st).
Proof. intros Hread. unfold iteration. rewrite Hread. by destruct st. Qed.

Lemma state_after_cons t ticks st st' :
  iteration t st = Done (Continue st') ->
  state_after (t :: ticks) st = state_after ticks st'.
Proof.
  intros Hit. unfold state_after. simpl. rewrite Hit, last_cons.
  by destruct (last (poll_trace ticks st')).
Qed.


Lemma iteration_device t st st' :
  loop_wf st ->
  iteration t st = Done (Continue st') ->
  device (streamdeck st') = device (streamdeck st).
Proof.
  intros Hwf Hit. destruct (hid_read t) as [report|e] eqn:Hread.
  - rewrite (iteration_delivered _ _ _ Hwf Hread) in Hit.
    destruct (_ && _); [destruct (volume_up t)|]; by simplify_eq.
  - by rewrite (iteration_read_failed _ _ _ Hread) in Hit.
Qed.

(** Whatever the run, after every completed iteration the loop's copy
    [prev_states] is the state the device object stores, both hold 15
    states, and the device handle is the one the loop started with. *)
Theorem poll_trace_invariant (ticks : list Tick) (st : LoopState) :
  loop_wf st ->
  Forall (fun s => loop_wf s /\
                   prev_states s = button_states (streamdeck s) /\
                   device (streamdeck s) = device (streamdeck st))
         (poll_trace ticks st).
Proof.
  revert st. induction ticks as [|t ticks IH]; intros st Hwf; [constructor|].
  simpl. destruct (iteration t st) as [[st'|]|] eqn:Hit; [|constructor..].
  destruct (iteration_continue _ _ _ Hwf Hit) as (Hwf' & Hsame & _).
  pose proof (iteration_device _ _ _ Hwf Hit) as Hdev.
  constructor; [by split; [|split]|].
  eapply Forall_impl; [by apply IH|]. simpl. intros s (? & ? & ?).
  split; [done|]. split; [done|congruence].
Qed.

Lemma poll_trace_invariant_witness :
  Forall (fun s => loop_wf s /\
                   prev_states s = button_states (streamdeck s) /\
                   device (streamdeck s) = 0)
         (poll_trace [tick_down; tick_no_data; tick_up] (loop_start deck0)).
Proof.
  apply (poll_trace_invariant [tick_down; tick_no_data; tick_up] (loop_start deck0)).
  split; reflexivity.
Defined.



(** An iteration never panics. It leaves the loop in two cases only: the
    read failed, and then with the read's error and nothing logged or
    changed; or button 0 was just pressed and the volume command failed, and
    then with the command's error, the press logged and [prev_states] not
    updated. In every other case the loop goes on with [prev_states] set to
    the state read. *)
Theorem iteration_outcomes (t : Tick) (st : LoopState) :
  loop_wf st ->
  match hid_read t with
  | ReadFailed e =>
      iteration t st = Done (Exit (String.append "Read error: " e) st)
  | Delivered report =>
      let current := current_of report (streamdeck st) in
      let pressed := button0 current && negb (button0 (prev_states st)) in
      exists st',
        button_states (streamdeck st') = current /\
        fired st' = fired st ++ (if pressed then [pressed0] else []) /\
        match volume_up t with
        | Err e =>
            if pressed
            then iteration t st = Done (Exit e st') /\ prev_states st' = prev_states st
            else iteration t st = Done (Continue st') /\ prev_states st' = current
        | Ok _ => iteration t st = Done (Continue st') /\ prev_states st' = current
        end
  end.
Proof.
  intros Hwf. destruct (hid_read t) as [report|e] eqn:Hread.
  - intros current pressed.
    rewrite (iteration_delivered _ _ _ Hwf Hread). fold current. fold pressed.
    destruct pressed.
    + destruct (volume_up t).
      * by exists (mkLoopState (set_button_states current (streamdeck st))
                     current (fired st ++ [pressed0])).
      * by exists (mkLoopState (set_button_states current (streamdeck st))
                     (prev_states st) (fired st ++ [pressed0])).
    + exists (mkLoopState (set_button_states current (streamdeck st))
                current (fired st)).
      rewrite app_nil_r. by destruct (volume_up t).
  - by apply iteration_read_failed.
Qed.

Lemma iteration_outcomes_witness :
  iteration (mkTick (ReadFailed "unplugged") (Ok ())) (loop_start deck0)
    = Done (Exit "Read error: unplugged" (loop_start deck0)).
Proof.
  apply (iteration_outcomes (mkTick (ReadFailed "unplugged") (Ok ())) (loop_start deck0)).
  split; reflexivity.
Defined.

(** A tick that brings nothing new is a no-op: when the read delivers no
    data, or a report that decodes to the states already stored, the loop
    state after the iteration is the state before (once [prev_states] is the
    stored state, as it is after every iteration), whatever the volume
    command would return. *)
Theorem iteration_unchanged_noop (t : Tick) (st : LoopState) (report : list byte) :
  loop_wf st ->
  prev_states st = button_states (streamdeck st) ->
  hid_read t = Delivered report ->
  report = [] \/ decoded report = button_states (streamdeck st) ->
  iteration t st = Done (Continue st).
Proof.
  intros Hwf Hsame Hread Hnew.
  rewrite (iteration_delivered _ _ _ Hwf Hread).
  assert (current_of report (streamdeck st) = button_states (streamdeck st)) as ->.
  { unfold current_of. case_decide; [done|]. by destruct Hnew. }
  rewrite Hsame, andb_negb_r, set_button_states_same, <- Hsame.
  by destruct st.
Qed.

Lemma iteration_unchanged_noop_witness :
  let st := state_after [tick_down] (loop_start deck0) in
  iteration tick_no_data st = Done (Continue st) /\
  iteration tick_down st = Done (Continue st).
Proof.
  intros st. split.
  - apply (iteration_unchanged_noop tick_no_data st []);
      [split; reflexivity|reflexivity..|by left].
  - apply (iteration_unchanged_noop tick_down st
             [x01; x00; x00; x00; x01; x01]);
      [split; reflexivity|reflexivity..|by right].
Defined.

Lemma poll_trace_app ticks1 ticks2 st :
  poll_trace (ticks1 ++ ticks2) st =
    poll_trace ticks1 st ++
    (if decide (length (poll_trace ticks1 st) = length ticks1)
     then poll_trace ticks2 (state_after ticks1 st) else []).
Proof.
  revert st. induction ticks1 as [|t ticks1 IH]; intros st; [done|].
  destruct (iteration t st) as [[st'|e st']|] eqn:Hit.
  - rewrite (state_after_cons _ _ _ _ Hit). simpl. rewrite Hit, IH. simpl.
    f_equal. f_equal. repeat case_decide; (done || lia).
  - simpl. by rewrite Hit.
  - simpl. by rewrite Hit.
Qed.

(** A failed read ends the run: the ticks after it are not processed, so the
    states the loop goes through are those of the ticks before it. *)
Theorem poll_trace_stops_at_read_error
    (ticks1 ticks2 : list Tick) (t : Tick) (e : string) (st : LoopState) :
  hid_read t = ReadFailed e ->
  poll_trace (ticks1 ++ t :: ticks2) st = poll_trace ticks1 st /\
  state_after (ticks1 ++ t :: ticks2) st = state_after ticks1 st.
Proof.
  intros Hread.
  assert (poll_trace (ticks1 ++ t :: ticks2) st = poll_trace ticks1 st) as Htr.
  { rewrite poll_trace_app. simpl.
    rewrite (iteration_read_failed _ _ _ Hread).
    case_decide; by rewrite app_nil_r. }
  split; [done|]. unfold state_after. by rewrite Htr.
Qed.

Lemma poll_trace_stops_at_read_error_witness :
  fired (state_after ([tick_down] ++ mkTick (ReadFailed "unplugged") (Ok ())
                        :: [tick_up; tick_down]) (loop_start deck0))
  = [pressed0].
Proof.
  rewrite (proj2 (poll_trace_stops_at_read_error [tick_down] [tick_up; tick_down]
                    (mkTick (ReadFailed "unplugged") (Ok ())) "unplugged"
                    (loop_start deck0) eq_refl)).
  reflexivity.
Defined.

(** After a run whose iterations all complete, the device object stores the
    decoding of the last report of at least one byte, or still the states it
    started with when no such report came. *)
Theorem last_report_wins (ticks : list Tick) (st : LoopState) :
  loop_wf st ->
  length (poll_trace ticks st) = length ticks ->
  button_states (streamdeck (state_after ticks st)) =
    match last_report ticks with
    | Some report => decoded report
    | None => button_states (streamdeck st)
    end.
Proof.
  revert st. induction ticks as [|t ticks IH]; intros st Hwf Hlen; [done|].
  apply poll_trace_cons_inv in Hlen as (st' & Hit & _ & Hlen).
  destruct (iteration_continue _ _ _ Hwf Hit) as (Hwf' & _).
  rewrite (state_after_cons _ _ _ _ Hit), IH by done.
  cbn [last_report]. destruct (last_report ticks) as [report|]; [done|].
  destruct (hid_read t) as [report|e] eqn:Hread.
  - rewrite (iteration_delivered _ _ _ Hwf Hread) in Hit.
    assert (button_states (streamdeck st') = current_of report (streamdeck st)) as ->.
    { destruct (_ && _); [destruct (volume_up t)|]; by simplify_eq. }
    by destruct report.
  - by rewrite (iteration_read_failed _ _ _ Hread) in Hit.
Qed.

Lemma last_report_wins_witness :
  button_states (streamdeck (state_after [tick_up; tick_down; tick_no_data]
                               (loop_start deck0)))
  = decoded [x01; x00; x00; x00; x01; x01].
Proof.
  rewrite (last_report_wins [tick_up; tick_down; tick_no_data] (loop_start deck0));
    [reflexivity|split; reflexivity|reflexivity].
Defined.

End Loop.

Module Handles.
Import Hid Commands.

(** *** HID handles over repeated [connect_device] calls *)

(** The handle the managed state holds. *)
Definition held (state : AppState) : list HidDevice :=
  match streamdeck state with
  | Some sd => [device sd]
  | None => []
  end.

Section Transport.

Variable StreamDeck_connect : string -> Result StreamDeck string.

(** [connect_device] invoked for each path in turn, results ignored. *)
Fixpoint connect_each (paths : list string) (state : AppState) : AppState :=
  match paths with
  | [] => state
  | p :: rest => connect_each rest (connect_device StreamDeck_connect p state).2
  end.

(** The handles the opens of these paths produce, in order. *)
Definition opened (paths : list string) : list HidDevice :=
  omap (fun p => match StreamDeck_connect p with
                 | Ok sd => Some (device sd)
                 | Err _ => None
                 end) paths.

(** No handle is lost and none is closed twice: after any sequence of
    [connect_device] calls, failed ones included, the handles closed so far
    followed by the one held are the handles closed and held before followed
    by those the successful opens produced, in order. In particular at most
    one handle is held, and every replaced one has been closed. *)
Theorem connect_each_conserves_handles (paths : list string) (state : AppState) :
  closed (connect_each paths state) ++ held (connect_each paths state)
    = closed state ++ held state ++ opened paths.
Proof.
  revert state. induction paths as [|p paths IH]; intros state.
  - simpl. by rewrite app_nil_r.
  - cbn [connect_each]. rewrite IH. unfold opened. cbn [omap list_omap].
    unfold connect_device. fold (opened paths).
    destruct (StreamDeck_connect p) as [sd|e]; [|done].
    cbn [snd closed streamdeck held drop_deck]. unfold held, drop_deck.
    destruct (streamdeck state) as [old|]; simpl; by rewrite <- ?app_assoc.
Qed.

End Transport.

End Handles.

Module App.
Import Hid Commands UseStreamDeck.

(** *** [App.vue]: the handlers, the template's conditions and the grid *)

(** What a [catch] receives: a rejected [invoke] carries the string of the
    command's [Err(...)]; anything else thrown is an [Error] object. *)
Inductive Thrown : Type :=
  | ThrownString (s : string)
  | ThrownError (message : string).

(** [e instanceof Error ? e.message : fallback] *)
Definition error_message (fallback : string) (e : Thrown) : string :=
  match e with
  | ThrownError message => message
  | ThrownString _ => fallback
  end.

(** The refs [isLoading] and [error] of the component, with the composable
    and what it talks to. *)
Record Page : Type := mkPage {
  isLoading : bool;
  error : option string;
  world : World;
}.

(** The page as mounted, before any handler has run. *)
Definition Page_new : Page := mkPage false None World_new.

(** The shape the three handlers share:
    [isLoading.value = true; error.value = null;
     try { await call } catch (e) { error.value = ... } finally { isLoading.value = false }] *)
Definition guarded (fallback : string)
    (call : World -> Result unit string * World) (p : Page) : Page :=
  let p := mkPage true None (world p) in
  let '(res, w) := call (world p) in
  let p :=
    match res with
    | Ok _ => mkPage (isLoading p) (error p) w
    | Err e => mkPage (isLoading p) (Some (error_message fallback (ThrownString e))) w
    end in
  mkPage false (error p) (world p).

Section Backend.

Variable StreamDeck_connect : string -> Result StreamDeck string.

(** What the command [list_devices] returns when it is invoked. *)
Variable list_devices : Result (list DeviceInfo) string.

(** [listDevices()]: [devices.value = await invoke("list_devices")] *)
Definition listDevices (w : World) : Result unit string * World :=
  match list_devices with
  | Err e => (Err e, w)
  | Ok result =>
      (Ok (), set_ui (mkComposable result (connectedDevice (ui w))
                        (buttonStates (ui w)) (unlistenFn (ui w))) w)
  end.

Definition handleRefreshDevices : Page -> Page :=
  guarded "Failed to list devices" listDevices.

Definition handleConnect (device : DeviceInfo) : Page -> Page :=
  guarded "Failed to connect" (connect StreamDeck_connect (path device)).

End Backend.

Definition handleDisconnect : Page -> Page :=
  guarded "Failed to disconnect" disconnect.

(** [v-if="connectedDevice?.path !== device.path"]: the row of [device]
    offers Connect; otherwise ([v-else]) it offers Disconnect. *)
Definition offers_connect (c : Composable) (device : DeviceInfo) : bool :=
  bool_decide (path <$> connectedDevice c <> Some (path device)).

(** [v-if="connectedDevice"]: the button grid is on the page. *)
Definition shows_grid (c : Composable) : bool :=
  bool_decide (is_Some (connectedDevice c)).

(** [StreamDeckGrid.vue]: [Array.from({ length: BUTTON_COUNT }, (_, i) => i)] *)
Definition buttons : list nat := seq 0 15.

(** [:class="{ pressed: buttonStates[index] }"]: an index the array does not
    have reads as undefined, which is not pressed. *)
Definition pressed (buttonStates : list bool) (index : nat) : bool :=
  default false (buttonStates !! index).

(** The cells the grid renders, with their index and whether highlighted. *)
Definition grid_cells (buttonStates : list bool) : list (nat * bool) :=
  (fun index => (index, pressed buttonStates index)) <$> buttons.

(** [disconnect()] with the command behind [invoke("disconnect_device")]
    left open: what it returns and what it does to the managed state. *)
Definition disconnect_via (disconnect_device : AppState -> Result unit string * AppState)
    (w : World) : Result unit string * World :=
  match disconnect_device (backend w) with
  | (Err e, b) => (Err e, set_backend b w)
  | (Ok _, b) =>
      let w := set_backend b w in
      (Ok (), set_ui (mkComposable (devices (ui w)) None
                        (replicate 15 false) (unlistenFn (ui w))) w)
  end.

(** The event bus hands out fresh listener ids. *)
Definition bus_wf (w : World) : Prop :=
  NoDup (listeners w) /\ Forall (fun f => f < next_listener w) (listeners w).

(** A Stream Deck Original next to the MK.2. *)
Definition original : DeviceInfo :=
  mkDeviceInfo "hid#2" "Stream Deck" (Some "AL01") 4057 96.

(** *** The handlers *)

Lemma connect_result StreamDeck_connect devicePath w :
  (connect StreamDeck_connect devicePath w).1 =
    match StreamDeck_connect devicePath with
    | Ok _ => Ok ()
    | Err e => Err e
    end.
Proof.
  unfold connect, connect_device.
  destruct (StreamDeck_connect devicePath); [|done]. simpl.
  by destruct (find_device _ _).
Qed.

Lemma guarded_outcome fallback call p :
  isLoading (guarded fallback call p) = false /\
  world (guarded fallback call p) = (call (world p)).2 /\
  error (guarded fallback call p) =
    match (call (world p)).1 with
    | Ok _ => None
    | Err _ => Some fallback
    end.
Proof.
  unfold guarded. simpl. destruct (call (world p)) as [[[]|e] w]; done.
Qed.

(** [handleConnect] always ends with [isLoading] false and leaves the
    composable as [connect] left it. The error shown is cleared when the open
    succeeds and is the fixed text "Failed to connect" when it fails: the
    rejection is the backend's string, not an [Error], so the backend's
    message never reaches the page. *)
Theorem handleConnect_outcome
    (StreamDeck_connect : string -> Result StreamDeck string)
    (device : DeviceInfo) (p : Page) :
  let p' := handleConnect StreamDeck_connect device p in
  isLoading p' = false /\
  world p' = (connect StreamDeck_connect (path device) (world p)).2 /\
  error p' = match StreamDeck_connect (path device) with
             | Ok _ => None
             | Err _ => Some "Failed to connect"
             end.
Proof.
  intros p'. subst p'. unfold handleConnect.
  destruct (guarded_outcome "Failed to connect"
              (connect StreamDeck_connect (path device)) p) as (Hl & Hw & He).
  rewrite Hl, Hw, He, connect_result.
  by destruct (StreamDeck_connect (path device)).
Qed.

(** [handleRefreshDevices] always ends with [isLoading] false. When the
    command succeeds the device list is replaced by its result and the error
    cleared; when it fails the list is kept and the error is the fixed text
    "Failed to list devices". Either way the connected device, the button
    states, the listener and the backend are left alone. *)
Theorem handleRefreshDevices_outcome
    (list_devices : Result (list DeviceInfo) string) (p : Page) :
  let p' := handleRefreshDevices list_devices p in
  isLoading p' = false /\
  devices (ui (world p')) =
    match list_devices with
    | Ok result => result
    | Err _ => devices (ui (world p))
    end /\
  error p' = match list_devices with
             | Ok _ => None
             | Err _ => Some "Failed to list devices"
             end /\
  connectedDevice (ui (world p')) = connectedDevice (ui (world p)) /\
  buttonStates (ui (world p')) = buttonStates (ui (world p)) /\
  unlistenFn (ui (world p')) = unlistenFn (ui (world p)) /\
  backend (world p') = backend (world p) /\
  listeners (world p') = listeners (world p).
Proof.
  intros p'. subst p'. unfold handleRefreshDevices.
  destruct (guarded_outcome "Failed to list devices" (listDevices list_devices) p)
    as (Hl & Hw & He).
  rewrite Hl, Hw, He. unfold listDevices. by destruct list_devices.
Qed.

(** A refresh can strand the connection: when the new list has no device
    with the path of the connected one, [connectedDevice] still holds it, so
    the grid stays on the page, and every row of the list offers Connect:
    no row offers Disconnect. *)
Theorem refresh_strands_connection
    (result : list DeviceInfo) (connected : DeviceInfo) (p : Page) :
  connectedDevice (ui (world p)) = Some connected ->
  (forall d, d ∈ result -> path d <> path connected) ->
  let c := ui (world (handleRefreshDevices (Ok result) p)) in
  devices c = result /\
  connectedDevice c = Some connected /\
  shows_grid c = true /\
  (forall d, d ∈ devices c -> offers_connect c d = true).
Proof.
  intros Hconn Hgone c. subst c. unfold handleRefreshDevices.
  destruct (guarded_outcome "Failed to list devices" (listDevices (Ok result)) p)
    as (_ & -> & _).
  simpl. split; [done|]. split; [done|].
  unfold shows_grid, offers_connect. simpl. rewrite Hconn. simpl.
  split; [done|].
  intros d Hd. apply bool_decide_eq_true. intros [= Hp].
  by apply (Hgone d).
Qed.

Lemma refresh_strands_connection_witness :
  let p := mkPage false None
             (set_ui (mkComposable [mk2] (Some mk2) (replicate 15 false) None)
                     World_new) in
  let c := ui (world (handleRefreshDevices (Ok []) p)) in
  connectedDevice c = Some mk2 /\ shows_grid c = true.
Proof.
  intros p c.
  destruct (refresh_strands_connection [] mk2 p) as (_ & H1 & H2 & _).
  - reflexivity.
  - intros d Hd. by apply elem_of_nil in Hd.
  - split; [exact H1|exact H2].
Defined.

(** *** [connect] and the rows of the device list *)

Lemma find_device_unique (d : DeviceInfo) (ds : list DeviceInfo) :
  NoDup (path <$> ds) -> d ∈ ds -> find_device (path d) ds = Some d.
Proof.
  intros Hnd Hd. unfold find_device.
  destruct (list_find_elem_of (fun x => path x = path d) ds d Hd eq_refl)
    as [[i x] Hfind].
  rewrite Hfind. simpl. f_equal.
  apply list_find_Some in Hfind as (Hi & Hp & _).
  apply list_elem_of_lookup in Hd as [j Hj].
  assert (i = j) as ->; [|congruence].
  apply (NoDup_lookup (path <$> ds) i j (path d) Hnd).
  - by rewrite list_lookup_fmap, Hi, <- Hp.
  - by rewrite list_lookup_fmap, Hj.
Qed.

(** When the paths of the listed devices are distinct, a successful
    [handleConnect] on a listed device makes it the connected device, shows
    the grid with no error, and turns exactly its row into the Disconnect
    row: every other row still offers Connect. *)
Theorem handleConnect_marks_one_row
    (StreamDeck_connect : string -> Result StreamDeck string)
    (device : DeviceInfo) (sd : StreamDeck) (p : Page) :
  NoDup (path <$> devices (ui (world p))) ->
  device ∈ devices (ui (world p)) ->
  StreamDeck_connect (path device) = Ok sd ->
  let p' := handleConnect StreamDeck_connect device p in
  let c := ui (world p') in
  error p' = None /\
  devices c = devices (ui (world p)) /\
  connectedDevice c = Some device /\
  shows_grid c = true /\
  (forall d, d ∈ devices c -> (offers_connect c d = false <-> d = device)).
Proof.
  intros Hnd Hin Hopen p' c. subst c p'. unfold handleConnect.
  destruct (guarded_outcome "Failed to connect"
              (connect StreamDeck_connect (path device)) p) as (_ & -> & ->).
  rewrite connect_result, Hopen.
  unfold connect, connect_device. rewrite Hopen. cbn [set_backend ui devices].
  rewrite (find_device_unique _ _ Hnd Hin). simpl.
  do 4 (split; [done|]).
  intros d Hd. unfold offers_connect. simpl.
  rewrite bool_decide_eq_false. split.
  - intros Hp. apply dec_stable in Hp. injection Hp as Hp.
    apply list_elem_of_lookup in Hd as [i Hi].
    apply list_elem_of_lookup in Hin as [j Hj].
    assert (i = j) as ->; [|congruence].
    apply (NoDup_lookup (path <$> devices (ui (world p))) i j (path d) Hnd).
    + by rewrite list_lookup_fmap, Hi.
    + rewrite list_lookup_fmap, Hj. simpl. by rewrite Hp.
  - intros -> Hne. by apply Hne.
Qed.

Lemma handleConnect_marks_one_row_witness :
  let p := mkPage false (Some "Failed to connect")
             (set_ui (mkComposable [original; mk2] None (replicate 15 false) None)
                     World_new) in
  let c := ui (world (handleConnect one_device mk2 p)) in
  connectedDevice c = Some mk2 /\
  offers_connect c mk2 = false /\ offers_connect c original = true.
Proof.
  intros p c.
  destruct (handleConnect_marks_one_row one_device mk2
              (mkStreamDeck 1 (replicate 15 false)) p) as (_ & _ & H & _).
  - simpl. apply NoDup_cons. split; [|apply NoDup_singleton].
    rewrite list_elem_of_singleton. discriminate.
  - apply elem_of_cons. right. apply list_elem_of_singleton. reflexivity.
  - reflexivity.
  - split; [exact H|]. split; reflexivity.
Defined.

(** *** The button listener on the event bus *)

Lemma filter_ne_absent (f : UnlistenFn) (l : list UnlistenFn) :
  f ∉ l -> filter (fun g => g <> f) l = l.
Proof.
  induction l as [|g l IH]; intros Hf; [done|].
  apply not_elem_of_cons in Hf as [Hne Hf].
  rewrite filter_cons. case_decide; [|congruence]. by rewrite IH.
Qed.

Lemma filter_ne_last (f : UnlistenFn) (l : list UnlistenFn) :
  f ∉ l -> filter (fun g => g <> f) (l ++ [f]) = l.
Proof.
  intros Hf. rewrite filter_app, filter_ne_absent by done.
  rewrite filter_cons. case_decide; [done|]. by rewrite app_nil_r.
Qed.

Lemma bus_wf_fresh w k : bus_wf w -> next_listener w <= k -> k ∉ listeners w.
Proof.
  intros [_ Hlt] Hk Hin. eapply Forall_forall in Hlt; [|exact Hin]. lia.
Qed.

Lemma setup_bus_wf w : bus_wf w -> bus_wf (setupButtonListener w).
Proof.
  intros Hwf. pose proof (bus_wf_fresh w _ Hwf (Nat.le_refl _)) as Hfresh.
  destruct Hwf as [Hnd Hlt]. split; simpl.
  - apply NoDup_app. split; [done|]. split; [|apply NoDup_singleton].
    intros g Hg ->%list_elem_of_singleton. done.
  - apply Forall_app. split.
    + eapply Forall_impl; [exact Hlt|]. simpl. lia.
    + constructor; [lia|constructor].
Qed.

(** Set up and clean up is a round trip: from a state without a stored
    handle, [setupButtonListener] followed by [cleanupButtonListener] leaves
    the refs, the backend and the listeners on the bus as they were; the
    listener registered in between is removed by the one unlisten call. *)
Theorem setup_cleanup_round_trip (w : World) :
  bus_wf w ->
  unlistenFn (ui w) = None ->
  let w' := cleanupButtonListener (setupButtonListener w) in
  ui w' = ui w /\ backend w' = backend w /\
  listeners w' = listeners w /\
  unlisten_calls w' = unlisten_calls w ++ [next_listener w] /\
  bus_wf w'.
Proof.
  intros Hwf Hnone w'. subst w'.
  pose proof (bus_wf_fresh w _ Hwf (Nat.le_refl _)) as Hfresh.
  unfold cleanupButtonListener, setupButtonListener. simpl.
  rewrite filter_ne_last by done.
  split; [revert Hnone; destruct (ui w); simpl; by intros ->|].
  do 3 (split; [done|]).
  destruct Hwf as [Hnd Hlt]. split; simpl; rewrite filter_ne_last by done; [done|].
  eapply Forall_impl; [exact Hlt|]. simpl. lia.
Qed.

Lemma setup_cleanup_round_trip_witness :
  listeners (cleanupButtonListener (setupButtonListener World_new)) = [].
Proof.
  destruct (setup_cleanup_round_trip World_new) as (_ & _ & H & _).
  - split; constructor.
  - reflexivity.
  - exact H.
Defined.

(** Setting up twice leaks a listener: the second [setupButtonListener]
    overwrites the stored handle, so that the clean-ups that follow, however
    many, remove the second listener only. The first stays on the bus, and
    button-state events keep writing [buttonStates]. *)
Theorem setup_twice_leaks (w : World) (n : nat) (payload : list bool) :
  bus_wf w ->
  let w' := Nat.iter (S n) cleanupButtonListener
              (setupButtonListener (setupButtonListener w)) in
  listeners w' = listeners w ++ [next_listener w] /\
  unlistenFn (ui w') = None /\
  buttonStates (ui (emit_button_state payload w')) = payload.
Proof.
  intros Hwf w'.
  assert (Hone : listeners (cleanupButtonListener
                              (setupButtonListener (setupButtonListener w)))
                 = listeners w ++ [next_listener w]).
  { unfold cleanupButtonListener, setupButtonListener. simpl.
    apply filter_ne_last. intros Hin.
    apply elem_of_app in Hin as [Hin|Hin%list_elem_of_singleton]; [|lia].
    by apply (bus_wf_fresh w (S (next_listener w)) Hwf); [lia|]. }
  assert (Hw' : w' = cleanupButtonListener
                       (setupButtonListener (setupButtonListener w))).
  { subst w'. induction n as [|n IH]; [done|].
    rewrite (Nat.iter_succ (S n)), IH.
    apply cleanup_without_handle, cleanup_clears_handle. }
  rewrite Hw', Hone. split; [done|]. split; [apply cleanup_clears_handle|].
  unfold emit_button_state. rewrite Hone.
  by destruct (listeners w).
Qed.

Lemma setup_twice_leaks_witness :
  listeners (cleanupButtonListener (cleanupButtonListener
               (setupButtonListener (setupButtonListener World_new)))) = [0].
Proof.
  destruct (setup_twice_leaks World_new 1 []) as (H & _).
  - split; constructor.
  - exact H.
Defined.

(** A clean-up that runs while the [listen] of [setupButtonListener] is
    pending is lost: it finds no handle, and once the set-up resumes the
    state is the one of a set-up that was never cleaned up, with the
    listener on the bus. *)
Theorem cleanup_while_pending_is_lost (w : World) :
  unlistenFn (ui w) = None ->
  setup_resume (setup_listen w).1 (cleanupButtonListener (setup_listen w).2)
    = setupButtonListener w /\
  (setup_listen w).1 ∈ listeners (setupButtonListener w) /\
  unlisten_calls (setupButtonListener w) = unlisten_calls w.
Proof.
  intros Hnone. rewrite cleanup_without_handle by done.
  split; [done|]. split; [|done].
  simpl. apply elem_of_app. right. by apply list_elem_of_singleton.
Qed.

Lemma cleanup_while_pending_is_lost_witness :
  listeners (setup_resume 0 (cleanupButtonListener (setup_listen World_new).2)) = [0].
Proof.
  destruct (cleanup_while_pending_is_lost World_new) as (H & _).
  - reflexivity.
  - change (setup_listen World_new).1 with 0 in H. by rewrite H.
Defined.

(** *** [connect] and [disconnect] on the refs *)

(** [connect] never touches the button states, the device list, the stored
    listener handle or the bus, whether the open succeeds or not; a
    successful open while another device is held closes that one handle, and
    the button states of the old device stay on the grid. *)
Theorem connect_leaves_button_states
    (StreamDeck_connect : string -> Result StreamDeck string)
    (devicePath : string) (w : World) :
  let w' := (connect StreamDeck_connect devicePath w).2 in
  buttonStates (ui w') = buttonStates (ui w) /\
  devices (ui w') = devices (ui w) /\
  unlistenFn (ui w') = unlistenFn (ui w) /\
  listeners w' = listeners w /\
  unlisten_calls w' = unlisten_calls w /\
  closed (backend w') =
    match StreamDeck_connect devicePath, streamdeck (backend w) with
    | Ok _, Some old => closed (backend w) ++ [device old]
    | _, _ => closed (backend w)
    end.
Proof.
  intros w'. subst w'. unfold connect, connect_device.
  destruct (StreamDeck_connect devicePath) as [sd|e]; [|done].
  cbn [set_backend ui backend devices].
  destruct (find_device _ _); simpl; by destruct (streamdeck (backend w)).
Qed.

(** [disconnect] follows the backend command. When the command rejects, the
    call rejects with its message and the refs are untouched: the page still
    shows the device as connected, with its grid. When it succeeds, the
    connected device is null, the grid is off the page, every row offers
    Connect, and the button states are 15 times false whatever they were,
    the device list and the listener handle being kept. *)
Theorem disconnect_via_outcome
    (disconnect_device : AppState -> Result unit string * AppState) (w : World) :
  let r := disconnect_via disconnect_device w in
  devices (ui r.2) = devices (ui w) /\
  unlistenFn (ui r.2) = unlistenFn (ui w) /\
  backend r.2 = (disconnect_device (backend w)).2 /\
  match (disconnect_device (backend w)).1 with
  | Err e => r.1 = Err e /\ ui r.2 = ui w
  | Ok _ =>
      r.1 = Ok () /\
      connectedDevice (ui r.2) = None /\
      buttonStates (ui r.2) = replicate 15 false /\
      shows_grid (ui r.2) = false /\
      (forall d, offers_connect (ui r.2) d = true)
  end.
Proof.
  intros r. subst r. unfold disconnect_via.
  destruct (disconnect_device (backend w)) as [[[]|e] b]; simpl; done.
Qed.

(** The composable's [disconnect] is [disconnect_via] on the command. *)
Lemma disconnect_is_via w : disconnect w = disconnect_via disconnect_device w.
Proof. done. Qed.

(** *** The grid *)

(** Whatever array the grid is given, it renders the 15 cells 0 to 14 in
    order, and a cell is highlighted exactly when the array holds true at its
    index: entries a short array lacks count as not pressed, and entries past
    index 14 are never shown. *)
Theorem grid_cells_any_array (buttonStates : list bool) :
  fst <$> grid_cells buttonStates = seq 0 15 /\
  (forall i, (i, true) ∈ grid_cells buttonStates <->
             i < 15 /\ buttonStates !! i = Some true).
Proof.
  unfold grid_cells, buttons. split.
  - reflexivity.
  - intros i. rewrite list_elem_of_fmap. split.
    + intros (j & [= <- Hp] & Hj). apply elem_of_seq in Hj.
      split; [lia|]. unfold pressed in Hp.
      by destruct (buttonStates !! i) as [[]|].
    + intros [Hi Hb]. exists i. unfold pressed. rewrite Hb. split; [done|].
      apply elem_of_seq. lia.
Qed.

(** From the device to the grid: when a listener is registered and the
    states [read_buttons] returns for a report are emitted as the event's
    payload, the grid highlights cell [i] exactly when byte [offset + i] of
    the report is not zero. *)
Theorem report_lights_grid
    (report : list byte) (self self' : StreamDeck) (states : list bool) (w : World) :
  well_formed self ->
  report <> [] ->
  listeners w <> [] ->
  read_buttons (Delivered report) self = Done (Ok states, self') ->
  grid_cells (buttonStates (ui (emit_button_state states w))) =
    (fun i => (i, nonzero (nth (offset + i) report x00))) <$> seq 0 15.
Proof.
  intros Hwf Hne Hl Hr.
  rewrite read_buttons_delivered in Hr by done. simplify_eq.
  unfold emit_button_state. destruct (listeners w); [done|].
  cbn [ui set_ui buttonStates].
  unfold grid_cells, buttons. apply list_fmap_ext.
  intros j i [-> Hi]%lookup_seq. cbn [Nat.add]. f_equal.
  unfold pressed, decoded.
  by rewrite list_lookup_fmap, lookup_seq_lt.
Qed.

Lemma report_lights_grid_witness :
  grid_cells (buttonStates (ui (emit_button_state (true :: replicate 14 false)
                                  (setupButtonListener World_new))))
  = (fun i => (i, nonzero (nth (offset + i) [x01; x00; x00; x00; x01] x00)))
      <$> seq 0 15.
Proof.
  apply (report_lights_grid [x01; x00; x00; x00; x01]
           (mkStreamDeck 0 (replicate 15 false))
           (mkStreamDeck 0 (true :: replicate 14 false))).
  - reflexivity.
  - discriminate.
  - discriminate.
  - reflexivity.
Defined.

End App.
